(** * Symmetric encryption envelope of st2common.util.crypto

    A shallow embedding of [st2common/util/crypto.py] (Python 2): the
    PKCS5 padding codec, the web-safe Base64 codec, the [AESKey] model and
    the keyczar-compatible encrypt / decrypt envelope, together with the
    properties the specification states about them.

    Python 2 [str] values are byte strings and are modelled as [list byte];
    Python integers are [Z]; exceptions are values of [exn] carried by an
    error monad; calls that touch the outside world (the entropy pool, the
    crypto backend, the file system) run in a state-and-error monad over
    [World]. *)

From Stdlib Require Import String Strings.Byte.
From Stdlib Require Import ZArith List Bool Lia.
Import ListNotations.

#[local] Open Scope Z_scope.

(** ** Python values and exceptions *)

Definition bytes := list byte.

(** A string literal read as a Python 2 [str]. *)
Definition bs (s : string) : bytes := list_byte_of_string s.

Inductive exn : Type :=
| Exception (msg : string)
| ValueError (msg : string)
| TypeError (msg : string)
| IndexError (msg : string)
| KeyError (key : bytes)
| AttributeError (msg : string)
| IOError (path : bytes)
| BinasciiError (msg : string)
| OverflowError (msg : string)
| InvalidSignature.

Inductive Result (A : Type) : Type :=
| Ok (a : A)
| Raise (e : exn).

Arguments Ok {A} a.
Arguments Raise {A} e.

Definition bindR {A B} (r : Result A) (k : A -> Result B) : Result B :=
  match r with
  | Ok a => k a
  | Raise e => Raise e
  end.

Notation "x <~ e ;; k" := (bindR e (fun x => k))
  (at level 61, e at next level, right associativity).

Definition succeeds {A} (r : Result A) : bool :=
  match r with Ok _ => true | Raise _ => false end.

(** ** Built-in operations on [str] *)

Definition len {A} (l : list A) : Z := Z.of_nat (length l).

Definition ord (b : byte) : Z := Z.of_N (Byte.to_N b).

Definition byte_of_Z (z : Z) : byte :=
  match Byte.of_N (Z.to_N (z mod 256)) with
  | Some b => b
  | None => x00
  end.

(** [chr(i)]: [ValueError] outside [range(256)]. *)
Definition chr (i : Z) : Result byte :=
  if (0 <=? i) && (i <? 256) then Ok (byte_of_Z i)
  else Raise (ValueError "chr() arg not in range(256)").

(** [n * s]: a non-positive count gives the empty string. *)
Definition str_mul (n : Z) (s : bytes) : bytes :=
  concat (repeat s (Z.to_nat n)).

(** Normalisation of one slice bound against a sequence of length [n]:
    a negative bound counts from the end, and both ends are clamped. *)
Definition slice_bound (n i : Z) : Z :=
  if i <? 0 then Z.max 0 (i + n) else Z.min i n.

(** [l[start:stop]]; [None] is an omitted bound. *)
Definition slice {A} (l : list A) (start stop : option Z) : list A :=
  let n := len l in
  let lo := match start with Some i => slice_bound n i | None => 0 end in
  let hi := match stop with Some j => slice_bound n j | None => n end in
  firstn (Z.to_nat (hi - lo)) (skipn (Z.to_nat lo) l).

(** [s[i]]: [IndexError] when [i] is out of range, negative [i] counts
    from the end. *)
Definition getitem (s : bytes) (i : Z) : Result byte :=
  let n := len s in
  let j := if i <? 0 then i + n else i in
  if (j <? 0) || (n <=? j) then Raise (IndexError "string index out of range")
  else Ok (nth (Z.to_nat j) s x00).

(** [s.upper()] on a byte string: ASCII lower-case letters are shifted. *)
Definition upper_byte (c : byte) : byte :=
  if (97 <=? ord c) && (ord c <=? 122) then byte_of_Z (ord c - 32) else c.

Definition upper (s : bytes) : bytes := map upper_byte s.

(** [s.replace(c, "")] for a one-character pattern [c]. *)
Definition remove_char (c : byte) (s : bytes) : bytes :=
  filter (fun b => negb (Byte.eqb b c)) s.

(** [s.splitlines()] on a byte string: lines end at "\n", "\r" or "\r\n",
    the line ends are dropped, and a final line end opens no empty line.
    [cur] is the line read so far. *)
Fixpoint splitlines_from (cur : bytes) (s : bytes) : list bytes :=
  match s with
  | [] => match cur with [] => [] | _ => [cur] end
  | c :: rest =>
      if Byte.eqb c x0a then cur :: splitlines_from [] rest
      else if Byte.eqb c x0d then
        match rest with
        | c' :: rest' =>
            if Byte.eqb c' x0a then cur :: splitlines_from [] rest'
            else cur :: splitlines_from [] rest
        | [] => cur :: splitlines_from [] rest
        end
      else splitlines_from (cur ++ [c]) rest
  end.

Definition splitlines (s : bytes) : list bytes := splitlines_from [] s.

(** [sep.join(parts)] for the empty separator. *)
Definition join_empty (parts : list bytes) : bytes := concat parts.

(** ** [binascii.hexlify] and [binascii.unhexlify] *)

Definition hex_digit (v : Z) : byte :=
  nth (Z.to_nat v) (bs "0123456789abcdef") x00.

Fixpoint hexlify (data : bytes) : bytes :=
  match data with
  | [] => []
  | b :: rest =>
      hex_digit (Z.land (Z.shiftr (ord b) 4) 15)
        :: hex_digit (Z.land (ord b) 15) :: hexlify rest
  end.

(** Value of one hexadecimal digit of either case, [None] for the C
    code's -1. *)
Definition to_int (c : byte) : option Z :=
  let o := ord c in
  if (48 <=? o) && (o <=? 57) then Some (o - 48)
  else
    let o := if (65 <=? o) && (o <=? 90) then o + 32 else o in
    if (97 <=? o) && (o <=? 102) then Some (o - 97 + 10) else None.

Fixpoint unhexlify_pairs (s : bytes) : Result bytes :=
  match s with
  | hi :: lo :: rest =>
      match to_int hi, to_int lo with
      | Some top, Some bot =>
          out <~ unhexlify_pairs rest ;;
          Ok (byte_of_Z (Z.shiftl top 4 + bot) :: out)
      | _, _ => Raise (TypeError "Non-hexadecimal digit found")
      end
  | _ => Ok []
  end.

Definition unhexlify (s : bytes) : Result bytes :=
  if len s mod 2 =? 1 then Raise (TypeError "Odd-length string")
  else
    (* the digits are checked from left to right, but no output is
       visible when one of them is bad *)
    unhexlify_pairs s.

(** ** [binascii] and [base64]: Base64 of Python 2.7 *)

Definition table_b2a_base64 : bytes :=
  bs "ABCDEFGHIJKLMNOPQRSTUVWXYZabcdefghijklmnopqrstuvwxyz0123456789+/".

Definition BASE64_PAD : byte := x3d.

Definition b64_char (v : Z) : byte := nth (Z.to_nat v) table_b2a_base64 x00.

(** The encoded text of [binascii.b2a_base64] before its courtesy
    newline: three bytes give four characters, a last group of one or two
    bytes is completed with pad characters. *)
Fixpoint b2a_base64_groups (s : bytes) : bytes :=
  match s with
  | [] => []
  | [a] =>
      [b64_char (Z.shiftr (ord a) 2);
       b64_char (Z.shiftl (Z.land (ord a) 3) 4);
       BASE64_PAD; BASE64_PAD]
  | [a; b] =>
      [b64_char (Z.shiftr (ord a) 2);
       b64_char (Z.lor (Z.shiftl (Z.land (ord a) 3) 4) (Z.shiftr (ord b) 4));
       b64_char (Z.shiftl (Z.land (ord b) 15) 2);
       BASE64_PAD]
  | a :: b :: c :: rest =>
      b64_char (Z.shiftr (ord a) 2)
      :: b64_char (Z.lor (Z.shiftl (Z.land (ord a) 3) 4) (Z.shiftr (ord b) 4))
      :: b64_char (Z.lor (Z.shiftl (Z.land (ord b) 15) 2) (Z.shiftr (ord c) 6))
      :: b64_char (Z.land (ord c) 63)
      :: b2a_base64_groups rest
  end.

Definition b2a_base64 (s : bytes) : bytes := b2a_base64_groups s ++ [x0a].

(** [s.translate(string.maketrans(from_, to_))] for two-character tables. *)
Definition translate2_char (from1 from2 to1 to2 c : byte) : byte :=
  if Byte.eqb c from1 then to1 else if Byte.eqb c from2 then to2 else c.

Definition translate2 (from1 from2 to1 to2 : byte) (s : bytes) : bytes :=
  map (translate2_char from1 from2 to1 to2) s.

(** [base64.urlsafe_b64encode(s)], that is [b64encode(s, '-_')]. *)
Definition urlsafe_b64encode (s : bytes) : bytes :=
  let encoded := slice (b2a_base64 s) None (Some (-1)) in
  translate2 x2b x2f x2d x5f encoded.

(** [table_a2b_base64]: the value of a Base64 character, [None] for the
    table's -1. The pad character has the entry 0. *)
Definition table_a2b_base64 (c : byte) : option Z :=
  let o := ord c in
  if (65 <=? o) && (o <=? 90) then Some (o - 65)
  else if (97 <=? o) && (o <=? 122) then Some (o - 97 + 26)
  else if (48 <=? o) && (o <=? 57) then Some (o - 48 + 52)
  else if o =? 43 then Some 62
  else if o =? 47 then Some 63
  else if o =? 61 then Some 0
  else None.

(** [binascii_find_valid]: the [(num+1)]-th valid Base64 character of [s],
    [None] when there is none. *)
Fixpoint binascii_find_valid (s : bytes) (num : Z) : option byte :=
  match s with
  | [] => None
  | c :: rest =>
      match table_a2b_base64 (byte_of_Z (Z.land (ord c) 127)) with
      | Some _ =>
          if ord c <=? 127 then
            if num =? 0 then Some c else binascii_find_valid rest (num - 1)
          else binascii_find_valid rest num
      | None => binascii_find_valid rest num
      end
  end.

(** The loop of [binascii.a2b_base64]: characters above 0x7f, line ends,
    blanks and characters outside the alphabet are skipped; a pad sequence
    ends the input. The result is the decoded bytes and the final
    [leftbits]. [leftchar] stays below 2^14, inside the C [unsigned int]. *)
Fixpoint a2b_base64_loop (ascii : bytes) (leftchar leftbits quad_pos : Z)
  : bytes * Z :=
  match ascii with
  | [] => ([], leftbits)
  | this_ch :: rest =>
      if (127 <? ord this_ch) || Byte.eqb this_ch x0d
         || Byte.eqb this_ch x0a || Byte.eqb this_ch x20
      then a2b_base64_loop rest leftchar leftbits quad_pos
      else if Byte.eqb this_ch BASE64_PAD then
        if (quad_pos <? 2)
           || ((quad_pos =? 2)
               && negb (match binascii_find_valid ascii 1 with
                        | Some c => Byte.eqb c BASE64_PAD
                        | None => false
                        end))
        then a2b_base64_loop rest leftchar leftbits quad_pos
        else ([], 0)
      else
        match table_a2b_base64 this_ch with
        | None => a2b_base64_loop rest leftchar leftbits quad_pos
        | Some v =>
            let quad_pos := Z.land (quad_pos + 1) 3 in
            let leftchar := Z.lor (Z.shiftl leftchar 6) v in
            let leftbits := leftbits + 6 in
            if 8 <=? leftbits then
              let leftbits := leftbits - 8 in
              let b := byte_of_Z (Z.land (Z.shiftr leftchar leftbits) 255) in
              let leftchar := Z.land leftchar (Z.shiftl 1 leftbits - 1) in
              let '(out, final) :=
                a2b_base64_loop rest leftchar leftbits quad_pos in
              (b :: out, final)
            else a2b_base64_loop rest leftchar leftbits quad_pos
        end
  end.

(** [binascii.a2b_base64]; [binascii.Error] is the exception it raises. *)
Definition a2b_base64 (s : bytes) : Result bytes :=
  let '(out, leftbits) := a2b_base64_loop s 0 0 0 in
  if negb (leftbits =? 0) then Raise (BinasciiError "Incorrect padding")
  else Ok out.

(** [base64.urlsafe_b64decode(s)], that is [b64decode(s, '-_')]: the
    alternative characters are translated to "+" and "/", and
    [binascii.Error] is turned into [TypeError]. As the library documents,
    a [TypeError] means incorrect padding; characters in neither alphabet
    are discarded before the padding check. *)
Definition urlsafe_b64decode (s : bytes) : Result bytes :=
  let s := translate2 x2d x5f x2b x2f s in
  match a2b_base64 s with
  | Raise (BinasciiError msg) => Raise (TypeError msg)
  | r => r
  end.

(** ** Keyczar related constants *)

Definition KEYCZAR_HEADER_SIZE : Z := 5.
Definition KEYCZAR_AES_BLOCK_SIZE : Z := 16.
(** [sha1().digest_size] *)
Definition KEYCZAR_HLEN : Z := 20.

(** ** PKCS5 padding *)

Definition pkcs5_pad (data : bytes) : Result bytes :=
  let pad := KEYCZAR_AES_BLOCK_SIZE - len data mod KEYCZAR_AES_BLOCK_SIZE in
  c <~ chr pad ;;
  let data := data ++ str_mul pad [c] in
  Ok data.

Definition pkcs5_unpad (data : bytes) : Result bytes :=
  c <~ getitem data (-1) ;;
  let pad := ord c in
  let data := slice data None (Some (- pad)) in
  Ok data.

(** ** Web-safe Base64 *)

Definition Base64WSEncode (s : bytes) : bytes :=
  remove_char x3d (urlsafe_b64encode s).

Definition Base64WSDecode (s : bytes) : Result bytes :=
  let s := join_empty (splitlines s) in
  let s := remove_char x20 s in
  let d := len s mod 4 in
  if d =? 1 then Raise (ValueError "Base64 decoding errors")
  else
    let s := if d =? 2 then s ++ bs "=="
             else if d =? 3 then s ++ bs "="
             else s in
    match urlsafe_b64decode s with
    | Raise (TypeError e) =>
        Raise (ValueError (String.append "Base64 decoding error: " e))
    | r => r
    end.

(** ** The outside world *)

(** What a call can observe of the backend: the operations of the
    [cryptography] library and of the entropy pool, most recent first. *)
Inductive Event : Type :=
| EvUrandom (n : Z)
| EvHmacSha1 (key msg : bytes)
| EvAesCbcEncrypt (key iv data : bytes)
| EvAesCbcDecrypt (key iv data : bytes)
| EvOpen (path : bytes).

Record World : Type := mkWorld {
  entropy : nat -> byte;          (* the bytes [os.urandom] hands out next *)
  files : bytes -> option bytes;  (* readable files by path *)
  trace : list Event
}.

Definition M (A : Type) : Type := World -> Result A * World.

Definition ret {A} (a : A) : M A := fun w => (Ok a, w).

Definition raise {A} (e : exn) : M A := fun w => (Raise e, w).

Definition bind {A B} (m : M A) (k : A -> M B) : M B :=
  fun w =>
    match m w with
    | (Ok a, w') => k a w'
    | (Raise e, w') => (Raise e, w')
    end.

Definition lift {A} (r : Result A) : M A := fun w => (r, w).

Definition log (ev : Event) : M unit :=
  fun w => (Ok tt, mkWorld (entropy w) (files w) (ev :: trace w)).

Notation "x <- e ;; k" := (bind e (fun x => k))
  (at level 61, e at next level, right associativity).

Notation "e ;;; k" := (bind e (fun _ => k))
  (at level 61, right associativity).

(** [sys.maxsize], the largest [Py_ssize_t], of a 64-bit build. *)
Definition sys_maxsize : Z := 9223372036854775807.

(** [os.urandom(n)]: the argument is read as a [Py_ssize_t], which
    fails with [OverflowError] outside its range, and a negative one is
    refused. *)
Definition os_urandom (n : Z) : M bytes :=
  if (n <? - sys_maxsize - 1) || (sys_maxsize <? n)
  then raise (OverflowError "Python int too large to convert to C long")
  else if n <? 0 then raise (ValueError "negative argument not allowed")
  else
    log (EvUrandom n) ;;;
    fun w =>
      let k := Z.to_nat n in
      (Ok (map (entropy w) (seq 0 k)),
       mkWorld (fun i => entropy w (k + i)%nat) (files w) (trace w)).

(** [open(path, 'r').read()] *)
Definition read_file (path : bytes) : M bytes :=
  log (EvOpen path) ;;;
  fun w =>
    match files w path with
    | Some content => (Ok content, w)
    | None => (Raise (IOError path), w)
    end.

(** ** The [cryptography] backend *)

Fixpoint bytes_eqb (a b : bytes) : bool :=
  match a, b with
  | [], [] => true
  | x :: a', y :: b' => Byte.eqb x y && bytes_eqb a' b'
  | _, _ => false
  end.

(** Key sizes [algorithms.AES] accepts: 128, 192 or 256 bits. *)
Definition aes_key_ok (key : bytes) : bool :=
  (len key * 8 =? 128) || (len key * 8 =? 192) || (len key * 8 =? 256).

(** The primitives the code takes from the backend: the AES block cipher
    on one 16-byte block and the HMAC-SHA1 digest, with what the code relies
    on: AES deciphers what it enciphered under the same key, blocks keep
    their size, and a SHA1 digest has 20 bytes. *)
Class CryptoBackend : Type := {
  aes_encrypt_block : bytes -> bytes -> bytes;
  aes_decrypt_block : bytes -> bytes -> bytes;
  hmac_sha1 : bytes -> bytes -> bytes;
  aes_encrypt_block_length : forall key block,
    aes_key_ok key = true -> len block = 16 ->
    len (aes_encrypt_block key block) = 16;
  aes_decrypt_encrypt_block : forall key block,
    aes_key_ok key = true -> len block = 16 ->
    aes_decrypt_block key (aes_encrypt_block key block) = block;
  hmac_sha1_length : forall key msg, len (hmac_sha1 key msg) = KEYCZAR_HLEN
}.

(** [json.loads] gives Python values; of these the key file uses objects,
    strings and integers. A string stands for a [str]; the [unicode]
    strings of a parsed document behave like it as long as they are ASCII
    and free of the characters 0x0b, 0x0c and 0x1c to 0x1e, at which
    [unicode.splitlines] breaks a line and [str.splitlines] does not. *)
#[warnings="-register-all"]
Inductive pyval : Type :=
| PyNone
| PyBool (b : bool)
| PyInt (z : Z)
| PyStr (s : bytes)
| PyList (l : list pyval)
| PyDict (d : list (bytes * pyval)).

(** Library functions the key model calls and no property depends on:
    [json.loads] and [int] on a string. *)
Class PyRuntime : Type := {
  json_loads : bytes -> Result pyval;
  int_of_str : bytes -> Result Z
}.

(** [v[key]] for a string key. *)
Definition py_getitem (v : pyval) (key : bytes) : Result pyval :=
  match v with
  | PyDict d =>
      match find (fun kv => bytes_eqb (fst kv) key) d with
      | Some kv => Ok (snd kv)
      | None => Raise (KeyError key)
      end
  | _ => Raise (TypeError "indices must be integers, not str")
  end.

(** [v.upper()] *)
Definition py_upper (v : pyval) : Result bytes :=
  match v with
  | PyStr s => Ok (upper s)
  | _ => Raise (AttributeError "object has no attribute 'upper'")
  end.

(** The receiver of [s.splitlines()] *)
Definition py_str (v : pyval) : Result bytes :=
  match v with
  | PyStr s => Ok s
  | _ => Raise (AttributeError "object has no attribute 'splitlines'")
  end.

(** [int(v)] *)
Definition py_int {rt : PyRuntime} (v : pyval) : Result Z :=
  match v with
  | PyInt z => Ok z
  | PyBool b => Ok (if b then 1 else 0)
  | PyStr s => int_of_str s
  | _ => Raise (TypeError "int() argument must be a string or a number")
  end.

Definition xor_byte (a b : byte) : byte := byte_of_Z (Z.lxor (ord a) (ord b)).

Fixpoint xor_bytes (a b : bytes) : bytes :=
  match a, b with
  | x :: a', y :: b' => xor_byte x y :: xor_bytes a' b'
  | _, _ => []
  end.

(** The first [k] blocks of 16 bytes of [data]. *)
Fixpoint blocks_of (k : nat) (data : bytes) : list bytes :=
  match k with
  | O => []
  | S k' => firstn 16 data :: blocks_of k' (skipn 16 data)
  end.

Section Backend.

Context {backend : CryptoBackend}.

(** CBC chaining: every plaintext block is xored with the previous
    ciphertext block (the IV for the first one) and enciphered. *)
Fixpoint cbc_encrypt_blocks (key prev : bytes) (blocks : list bytes) : bytes :=
  match blocks with
  | [] => []
  | p :: rest =>
      let c := aes_encrypt_block key (xor_bytes p prev) in
      c ++ cbc_encrypt_blocks key c rest
  end.

Fixpoint cbc_decrypt_blocks (key prev : bytes) (blocks : list bytes) : bytes :=
  match blocks with
  | [] => []
  | c :: rest =>
      xor_bytes (aes_decrypt_block key c) prev
        ++ cbc_decrypt_blocks key c rest
  end.

Record CipherCtx : Type := mkCipher { cipher_key : bytes; cipher_iv : bytes }.

(** [Cipher(algorithms.AES(key), modes.CBC(iv), backend)]: the key size is
    checked by [algorithms.AES], the IV size when the cipher is built. *)
Definition Cipher (key iv : bytes) : M CipherCtx :=
  if negb (aes_key_ok key) then raise (ValueError "Invalid key size for AES.")
  else if negb (len iv * 8 =? 128)
  then raise (ValueError "Invalid IV size for CBC.")
  else ret (mkCipher key iv).

(** [encryptor.update(data) + encryptor.finalize()]: [update] enciphers
    the whole blocks, [finalize] refuses a partial last block. *)
Definition encryptor_update_finalize (c : CipherCtx) (data : bytes) : M bytes :=
  log (EvAesCbcEncrypt (cipher_key c) (cipher_iv c) data) ;;;
  let out :=
    cbc_encrypt_blocks (cipher_key c) (cipher_iv c)
      (blocks_of (Z.to_nat (len data / 16)) data) in
  if negb (len data mod 16 =? 0)
  then raise (ValueError
    "The length of the provided data is not a multiple of the block length.")
  else ret out.

(** [decryptor.update(data) + decryptor.finalize()] *)
Definition decryptor_update_finalize (c : CipherCtx) (data : bytes) : M bytes :=
  log (EvAesCbcDecrypt (cipher_key c) (cipher_iv c) data) ;;;
  let out :=
    cbc_decrypt_blocks (cipher_key c) (cipher_iv c)
      (blocks_of (Z.to_nat (len data / 16)) data) in
  if negb (len data mod 16 =? 0)
  then raise (ValueError
    "The length of the provided data is not a multiple of the block length.")
  else ret out.

(** [h = hmac.HMAC(key, hashes.SHA1()); h.update(msg); h.finalize()] *)
Definition HMAC_finalize (key msg : bytes) : M bytes :=
  log (EvHmacSha1 key msg) ;;;
  ret (hmac_sha1 key msg).

(** [h = hmac.HMAC(key, hashes.SHA1()); h.update(msg); h.verify(sig)]:
    the digest is compared with [sig] in constant time. *)
Definition HMAC_verify (key msg signature : bytes) : M unit :=
  log (EvHmacSha1 key msg) ;;;
  if bytes_eqb (hmac_sha1 key msg) signature then ret tt
  else raise InvalidSignature.

End Backend.

(** ** The key model *)

Record AESKey : Type := mkAESKey {
  aes_key_string : bytes;
  hmac_key_string : bytes;
  hmac_key_size : pyval;
  mode : bytes;
  size : Z;
  hmac_key_bytes : bytes;
  aes_key_bytes : bytes
}.

Section Crypto.

Context {backend : CryptoBackend} {rt : PyRuntime}.

(** [AESKey.__init__] *)
Definition AESKey_init (aes_key_string hmac_key_string hmac_key_size
                        mode size : pyval) : Result AESKey :=
  mode <~ py_upper mode ;;
  size <~ py_int size ;;
  hmac_s <~ py_str hmac_key_string ;;
  hmac_key_bytes <~ Base64WSDecode hmac_s ;;
  aes_s <~ py_str aes_key_string ;;
  aes_key_bytes <~ Base64WSDecode aes_s ;;
  Ok (mkAESKey aes_s hmac_s hmac_key_size mode size
               hmac_key_bytes aes_key_bytes).

(** [AESKey.generate]; [key_size / 8] is the integer division of Python 2. *)
Definition generate (key_size : Z) : M AESKey :=
  aes_key_bytes <- os_urandom (key_size / 8) ;;
  let aes_key_string := Base64WSEncode aes_key_bytes in
  hmac_key_bytes <- os_urandom (key_size / 8) ;;
  let hmac_key_string := Base64WSEncode hmac_key_bytes in
  lift (AESKey_init (PyStr aes_key_string) (PyStr hmac_key_string)
                    (PyInt key_size) (PyStr (bs "CBC")) (PyInt key_size)).

(** [read_crypto_key]; the strings of the parsed document reach
    [AESKey.__init__] as [PyStr], under the reading of text given with
    [pyval]. *)
Definition read_crypto_key (key_path : bytes) : M AESKey :=
  content <- read_file key_path ;;
  content <- lift (json_loads content) ;;
  aes_key_string <- lift (py_getitem content (bs "aesKeyString")) ;;
  hmac_key <- lift (py_getitem content (bs "hmacKey")) ;;
  hmac_key_string <- lift (py_getitem hmac_key (bs "hmacKeyString")) ;;
  hmac_key' <- lift (py_getitem content (bs "hmacKey")) ;;
  hmac_key_size <- lift (py_getitem hmac_key' (bs "size")) ;;
  mode <- lift (py_getitem content (bs "mode")) ;;
  mode <- lift (py_upper mode) ;;
  size <- lift (py_getitem content (bs "size")) ;;
  lift (AESKey_init aes_key_string hmac_key_string hmac_key_size
                    (PyStr mode) size).

(** ** Encryption and decryption *)

Definition cryptography_symmetric_encrypt (encrypt_key : AESKey)
                                          (plaintext : bytes) : M bytes :=
  let aes_key_bytes := aes_key_bytes encrypt_key in
  let hmac_key_bytes := hmac_key_bytes encrypt_key in
  (* Pad data *)
  data <- lift (pkcs5_pad plaintext) ;;
  (* Generate IV *)
  iv_bytes <- os_urandom KEYCZAR_AES_BLOCK_SIZE ;;
  cipher <- Cipher aes_key_bytes iv_bytes ;;
  let header := bs "00000" in
  ciphertext_bytes <- encryptor_update_finalize cipher data ;;
  let msg_bytes := header ++ iv_bytes ++ ciphertext_bytes in
  (* Generate HMAC signature for message (header + IV + ciphertext) *)
  sig_bytes <- HMAC_finalize hmac_key_bytes msg_bytes ;;
  let result := msg_bytes ++ sig_bytes in
  (* Convert resulting byte string to hex notation *)
  let result := upper (hexlify result) in
  ret result.

Definition cryptography_symmetric_decrypt (decrypt_key : AESKey)
                                          (ciphertext : bytes) : M bytes :=
  let aes_key_bytes := aes_key_bytes decrypt_key in
  let hmac_key_bytes := hmac_key_bytes decrypt_key in
  ciphertext <- lift (unhexlify ciphertext) ;;
  let data_bytes := slice ciphertext (Some KEYCZAR_HEADER_SIZE) None in
  (* Verify ciphertext contains IV + HMAC signature *)
  if len data_bytes <? KEYCZAR_AES_BLOCK_SIZE + KEYCZAR_HLEN
  then raise (Exception "Invalid ciphertext (too short)")
  else
    let iv_bytes := slice data_bytes None (Some KEYCZAR_AES_BLOCK_SIZE) in
    let ciphertext_bytes :=
      slice data_bytes (Some KEYCZAR_AES_BLOCK_SIZE) (Some (- KEYCZAR_HLEN)) in
    let signature_bytes := slice data_bytes (Some (- KEYCZAR_HLEN)) None in
    (* Verify HMAC signature *)
    HMAC_verify hmac_key_bytes
      (slice ciphertext None (Some (- KEYCZAR_HLEN))) signature_bytes ;;;
    (* Decrypt ciphertext *)
    cipher <- Cipher aes_key_bytes iv_bytes ;;
    decrypted <- decryptor_update_finalize cipher ciphertext_bytes ;;
    (* Unpad *)
    decrypted <- lift (pkcs5_unpad decrypted) ;;
    ret decrypted.

Definition symmetric_encrypt (encrypt_key : AESKey) (plaintext : bytes)
  : M bytes :=
  cryptography_symmetric_encrypt encrypt_key plaintext.

Definition symmetric_decrypt (decrypt_key : AESKey) (ciphertext : bytes)
  : M bytes :=
  cryptography_symmetric_decrypt decrypt_key ciphertext.

End Crypto.

(** ** A small backend to run the code on

    A block cipher that xors the key over the block and a digest that
    folds key and message into 20 bytes: enough to evaluate the functions
    above on concrete inputs. *)

Fixpoint cycle_to (n : nat) (pattern cur : bytes) : bytes :=
  match n with
  | O => []
  | S n' =>
      match cur with
      | c :: cur' => c :: cycle_to n' pattern cur'
      | [] =>
          match pattern with
          | c :: cur' => c :: cycle_to n' pattern cur'
          | [] => x00 :: cycle_to n' pattern []
          end
      end
  end.

Definition toy_block (key block : bytes) : bytes :=
  xor_bytes block (cycle_to (length block) key key).

Definition toy_digest (key msg : bytes) : bytes :=
  let sum := fold_left (fun acc b => (acc * 31 + ord b + 7) mod 256)
                       (key ++ msg) (len msg) in
  map (fun i => byte_of_Z (sum + Z.of_nat i)) (seq 0 20).

(** A 128-bit key as [AESKey.generate] would store it, and a world whose
    entropy pool is a fixed sequence. *)
Definition sample_key : AESKey :=
  mkAESKey (Base64WSEncode (bs "0123456789abcdef"))
           (Base64WSEncode (bs "fedcba9876543210"))
           (PyInt 128) (bs "CBC") 128
           (bs "fedcba9876543210") (bs "0123456789abcdef").

Definition sample_world : World :=
  mkWorld (fun i => byte_of_Z (Z.of_nat (7 * i + 3))) (fun _ => None) [].

(** * Properties *)

(** ** Lists, slices and bytes *)

Lemma len_app {A} (l1 l2 : list A) : len (l1 ++ l2) = len l1 + len l2.
Proof. unfold len. rewrite length_app. lia. Qed.

Lemma len_nonneg {A} (l : list A) : 0 <= len l.
Proof. unfold len. lia. Qed.

Lemma len_nil {A} : len (@nil A) = 0.
Proof. reflexivity. Qed.

Lemma len_cons {A} (a : A) l : len (a :: l) = 1 + len l.
Proof. unfold len. simpl length. lia. Qed.

Lemma ord_range (b : byte) : 0 <= ord b < 256.
Proof.
  unfold ord. pose proof (Byte.to_N_bounded b) as H.
  split; [apply N2Z.is_nonneg|]. lia.
Qed.

Lemma byte_of_Z_ord (b : byte) : byte_of_Z (ord b) = b.
Proof.
  unfold byte_of_Z. rewrite Z.mod_small by apply ord_range.
  unfold ord. rewrite N2Z.id, Byte.of_to_N. reflexivity.
Qed.

Lemma ord_byte_of_Z (z : Z) : 0 <= z < 256 -> ord (byte_of_Z z) = z.
Proof.
  intros Hz. unfold byte_of_Z. rewrite Z.mod_small by assumption.
  destruct (Byte.of_N (Z.to_N z)) as [b|] eqn:E.
  - apply Byte.to_of_N in E. unfold ord. rewrite E. lia.
  - apply Byte.of_N_None_iff in E. lia.
Qed.

Lemma str_mul_single_length (n : Z) (c : byte) :
  0 <= n -> len (str_mul n [c]) = n.
Proof.
  intros Hn. unfold str_mul, len.
  assert (H : forall k, length (concat (repeat [c] k)) = k).
  { induction k; simpl; congruence. }
  rewrite H. lia.
Qed.

Lemma str_mul_single_all (n : Z) (c : byte) :
  Forall (fun b => b = c) (str_mul n [c]).
Proof.
  unfold str_mul. induction (Z.to_nat n); simpl; constructor; auto.
Qed.

Lemma slice_prefix {A} (l1 l2 : list A) :
  l2 <> [] -> slice (l1 ++ l2) None (Some (- len l2)) = l1.
Proof.
  intros Hne. unfold slice, slice_bound.
  assert (0 < len l2).
  { destruct l2; [congruence|]. rewrite len_cons. pose proof (len_nonneg l2). lia. }
  pose proof (len_nonneg l1).
  rewrite len_app.
  destruct (- len l2 <? 0) eqn:E; [|apply Z.ltb_ge in E; lia].
  rewrite Z.max_r by lia. simpl skipn.
  replace (Z.to_nat (- len l2 + (len l1 + len l2) - 0)) with (length l1 + 0)%nat
    by (unfold len in *; lia).
  rewrite firstn_app_2. simpl. apply app_nil_r.
Qed.

Lemma getitem_last (l : bytes) (c : byte) : getitem (l ++ [c]) (-1) = Ok c.
Proof.
  unfold getitem. rewrite len_app. change (len [c]) with 1.
  pose proof (len_nonneg l). change (-1 <? 0) with true. cbv iota.
  destruct ((-1 + (len l + 1) <? 0) || (len l + 1 <=? -1 + (len l + 1))) eqn:E.
  - apply orb_true_iff in E. destruct E as [E|E]; [apply Z.ltb_lt in E|apply Z.leb_le in E]; lia.
  - replace (Z.to_nat (-1 + (len l + 1))) with (length l) by (unfold len; lia).
    rewrite nth_middle. reflexivity.
Qed.

(** ** Padding codec *)

Lemma pad_length_range (data : bytes) :
  1 <= KEYCZAR_AES_BLOCK_SIZE - len data mod KEYCZAR_AES_BLOCK_SIZE <= 16.
Proof.
  unfold KEYCZAR_AES_BLOCK_SIZE.
  pose proof (Z.mod_pos_bound (len data) 16 ltac:(lia)). lia.
Qed.

Lemma pkcs5_pad_eq (data : bytes) :
  let n := 16 - len data mod 16 in
  pkcs5_pad data = Ok (data ++ str_mul n [byte_of_Z n]).
Proof.
  intros n. unfold pkcs5_pad, chr.
  pose proof (pad_length_range data) as H. unfold KEYCZAR_AES_BLOCK_SIZE in *.
  fold n in H |- *.
  destruct ((0 <=? n) && (n <? 256)) eqn:E; [reflexivity|].
  apply andb_false_iff in E.
  destruct E as [E|E]; [apply Z.leb_gt in E|apply Z.ltb_ge in E]; lia.
Qed.

Lemma pkcs5_unpad_app (data padding : bytes) (c : byte) :
  ord c = len (padding ++ [c]) ->
  pkcs5_unpad (data ++ padding ++ [c]) = Ok data.
Proof.
  intros Hc. unfold pkcs5_unpad.
  rewrite app_assoc, getitem_last. simpl bindR.
  rewrite <- app_assoc, Hc, slice_prefix; [reflexivity|].
  destruct padding; discriminate.
Qed.

Lemma str_mul_snoc (n : Z) (c : byte) :
  1 <= n -> str_mul n [c] = str_mul (n - 1) [c] ++ [c].
Proof.
  intros Hn. unfold str_mul.
  replace (Z.to_nat n) with (S (Z.to_nat (n - 1))) by lia.
  induction (Z.to_nat (n - 1)) as [|k IH]; [reflexivity|].
  simpl in *. rewrite IH at 1. reflexivity.
Qed.

Lemma pkcs5_unpad_pad_bytes (data : bytes) (n : Z) :
  1 <= n <= 16 ->
  pkcs5_unpad (data ++ str_mul n [byte_of_Z n]) = Ok data.
Proof.
  intros Hn. rewrite str_mul_snoc by lia.
  apply pkcs5_unpad_app.
  rewrite ord_byte_of_Z by lia.
  rewrite <- str_mul_snoc by lia.
  rewrite str_mul_single_length; lia.
Qed.

Lemma pkcs5_padded_length (data : bytes) :
  let n := 16 - len data mod 16 in
  len (data ++ str_mul n [byte_of_Z n]) mod 16 = 0.
Proof.
  intros n. pose proof (pad_length_range data) as Hn.
  unfold KEYCZAR_AES_BLOCK_SIZE in Hn. fold n in Hn.
  rewrite len_app, str_mul_single_length by lia. subst n.
  replace (len data + (16 - len data mod 16))
    with (len data - len data mod 16 + 1 * 16) by lia.
  rewrite Z.mod_add by lia.
  rewrite Zminus_mod, Zmod_mod, Z.sub_diag. reflexivity.
Qed.

(** C7. [pkcs5_pad] never fails and appends exactly
    [n = 16 - len(data) mod 16] bytes, each of value [n]; [n] lies between
    1 and 16 and is 16 (a whole block) when the length is already a
    multiple of 16; the padded length is a multiple of 16; and [pkcs5_unpad]
    gives the original data back. *)
Theorem pkcs5_pad_unpad_spec (data : bytes) :
  let n := 16 - len data mod 16 in
  1 <= n <= 16 /\
  (len data mod 16 = 0 -> n = 16) /\
  exists padding : bytes,
    pkcs5_pad data = Ok (data ++ padding) /\
    len padding = n /\
    Forall (fun b => ord b = n) padding /\
    len (data ++ padding) mod 16 = 0 /\
    pkcs5_unpad (data ++ padding) = Ok data.
Proof.
  intros n. pose proof (pad_length_range data) as Hn.
  unfold KEYCZAR_AES_BLOCK_SIZE in Hn. fold n in Hn.
  split; [exact Hn|]. split; [subst n; lia|].
  exists (str_mul n [byte_of_Z n]).
  split; [apply pkcs5_pad_eq|].
  split; [apply str_mul_single_length; lia|].
  split.
  { eapply Forall_impl; [|apply str_mul_single_all].
    intros b ->. apply ord_byte_of_Z. lia. }
  split; [apply pkcs5_padded_length|].
  apply pkcs5_unpad_pad_bytes. exact Hn.
Qed.

(** The whole-block case of C7 on a 16-byte input. *)
Lemma pkcs5_pad_unpad_spec_witness :
  let data := bs "0123456789abcdef" in
  len data mod 16 = 0 /\
  16 - len data mod 16 = 16 /\
  pkcs5_pad data = Ok (data ++ str_mul 16 [x10]) /\
  pkcs5_unpad (data ++ str_mul 16 [x10]) = Ok data.
Proof.
  intros data.
  destruct (pkcs5_pad_unpad_spec data) as (_ & Hfull & _).
  split; [reflexivity|]. split; [apply Hfull; reflexivity|].
  split; reflexivity.
Defined.



(** Splits a hypothesis [a && b && ... = true] into its conjuncts. *)
Ltac split_andb H :=
  repeat (apply andb_true_iff in H; destruct H as [H ?]).

(** ** Checking a property on every byte *)

Definition all_bytes : list byte := map (fun n => byte_of_Z (Z.of_nat n)) (seq 0 256).

Lemma all_bytes_complete (b : byte) : In b all_bytes.
Proof.
  unfold all_bytes. rewrite <- (byte_of_Z_ord b).
  pose proof (ord_range b) as H.
  replace (ord b) with (Z.of_nat (Z.to_nat (ord b))) by lia.
  apply (in_map (fun n => byte_of_Z (Z.of_nat n))).
  apply in_seq. lia.
Qed.

Lemma forall_byte (p : byte -> bool) :
  forallb p all_bytes = true -> forall b, p b = true.
Proof.
  intros H b. rewrite forallb_forall in H. apply H, all_bytes_complete.
Qed.

Lemma forall_byte2 (p : byte -> byte -> bool) :
  forallb (fun a => forallb (p a) all_bytes) all_bytes = true ->
  forall a b, p a b = true.
Proof.
  intros H a. apply forall_byte. revert a. apply forall_byte. exact H.
Qed.

Lemma bytes_eqb_eq (a b : bytes) : bytes_eqb a b = true <-> a = b.
Proof.
  revert b. induction a as [|x a IH]; intros [|y b]; simpl; split;
    try congruence; try reflexivity.
  - intros H. apply andb_true_iff in H. destruct H as [H1 H2].
    apply Byte.byte_dec_bl in H1. apply IH in H2. congruence.
  - intros H. injection H as -> ->. apply andb_true_iff. split.
    + apply Byte.byte_dec_lb. reflexivity.
    + apply IH. reflexivity.
Qed.

Lemma bytes_eqb_refl (a : bytes) : bytes_eqb a a = true.
Proof. apply bytes_eqb_eq. reflexivity. Qed.

Lemma bytes_eqb_neq (a b : bytes) : a <> b -> bytes_eqb a b = false.
Proof.
  intros H. destruct (bytes_eqb a b) eqn:E; [|reflexivity].
  apply bytes_eqb_eq in E. contradiction.
Qed.

(** ** Hexadecimal codec *)

Definition hex_pair_ok (b : byte) : bool :=
  match to_int (upper_byte (hex_digit (Z.land (Z.shiftr (ord b) 4) 15))),
        to_int (upper_byte (hex_digit (Z.land (ord b) 15))) with
  | Some top, Some bot => Byte.eqb (byte_of_Z (Z.shiftl top 4 + bot)) b
  | _, _ => false
  end.

Lemma hex_pair_roundtrip (b : byte) : hex_pair_ok b = true.
Proof. apply forall_byte. vm_compute. reflexivity. Qed.

Lemma unhexlify_pairs_hexlify (data : bytes) :
  unhexlify_pairs (upper (hexlify data)) = Ok data.
Proof.
  induction data as [|b data IH]; [reflexivity|].
  pose proof (hex_pair_roundtrip b) as Hb. unfold hex_pair_ok in Hb.
  cbn [hexlify upper map unhexlify_pairs]. fold (upper (hexlify data)).
  destruct (to_int (upper_byte (hex_digit (Z.land (Z.shiftr (ord b) 4) 15))))
    as [top|]; [|discriminate].
  destruct (to_int (upper_byte (hex_digit (Z.land (ord b) 15))))
    as [bot|]; [|discriminate].
  apply Byte.byte_dec_bl in Hb. rewrite IH. cbn [bindR]. rewrite Hb.
  reflexivity.
Qed.

Lemma len_map {A B} (f : A -> B) (l : list A) : len (map f l) = len l.
Proof. unfold len. rewrite length_map. reflexivity. Qed.

Lemma len_hexlify (data : bytes) : len (hexlify data) = 2 * len data.
Proof.
  induction data as [|b data IH]; [reflexivity|].
  cbn [hexlify]. rewrite !len_cons, IH. lia.
Qed.

(** [unhexlify] reads back what [hexlify(...).upper()] wrote. *)
Lemma unhexlify_hexlify (data : bytes) :
  unhexlify (upper (hexlify data)) = Ok data.
Proof.
  unfold unhexlify. unfold upper at 1. rewrite len_map, len_hexlify.
  replace (2 * len data) with (0 + len data * 2) by lia.
  rewrite Z.mod_add by lia. cbn [Z.modulo Z.eqb Z.div_eucl].
  apply unhexlify_pairs_hexlify.
Qed.

Definition is_upper_hex_digit (c : byte) : bool :=
  existsb (Byte.eqb c) (bs "0123456789ABCDEF").

Definition hex_pair_upper (b : byte) : bool :=
  is_upper_hex_digit (upper_byte (hex_digit (Z.land (Z.shiftr (ord b) 4) 15)))
  && is_upper_hex_digit (upper_byte (hex_digit (Z.land (ord b) 15))).

Lemma upper_hexlify_digits (data : bytes) :
  forallb is_upper_hex_digit (upper (hexlify data)) = true.
Proof.
  induction data as [|b data IH]; [reflexivity|].
  cbn [hexlify upper map forallb]. fold (upper (hexlify data)).
  rewrite IH, andb_true_r.
  apply (forall_byte hex_pair_upper). vm_compute. reflexivity.
Qed.

(** ** Base64 codec *)

(** One accepted character in the loop of [a2b_base64]: the new state and
    the byte that became ready, if any. *)
Definition feed (v leftchar leftbits quad_pos : Z) : option byte * (Z * Z * Z) :=
  let quad_pos := Z.land (quad_pos + 1) 3 in
  let leftchar := Z.lor (Z.shiftl leftchar 6) v in
  let leftbits := leftbits + 6 in
  if 8 <=? leftbits then
    (Some (byte_of_Z (Z.land (Z.shiftr leftchar (leftbits - 8)) 255)),
     (Z.land leftchar (Z.shiftl 1 (leftbits - 8) - 1), leftbits - 8, quad_pos))
  else (None, (leftchar, leftbits, quad_pos)).

Definition emit (b : option byte) (r : bytes * Z) : bytes * Z :=
  match b with
  | Some b => (b :: fst r, snd r)
  | None => r
  end.

(** The character written for the 6-bit value [v], and what the decoder
    sees of it after its own translation. *)
Definition enc_char (v : Z) : byte := translate2_char x2b x2f x2d x5f (b64_char v).
Definition dec_char (c : byte) : byte := translate2_char x2d x5f x2b x2f c.

(** A character that passes every filter of the decoder loop and of
    [Base64WSDecode] and stands for [v]. *)
Definition char_ok (v : Z) : bool :=
  let c := enc_char v in
  let d := dec_char c in
  negb (127 <? ord d) && negb (Byte.eqb d x0d) && negb (Byte.eqb d x0a)
  && negb (Byte.eqb d x20) && negb (Byte.eqb d BASE64_PAD)
  && match table_a2b_base64 d with Some v' => v' =? v | None => false end
  && negb (Byte.eqb c x0d) && negb (Byte.eqb c x0a)
  && negb (Byte.eqb c x20) && negb (Byte.eqb c BASE64_PAD).

Lemma a2b_loop_char (v : Z) (rest : bytes) (leftchar leftbits quad_pos : Z) :
  char_ok v = true ->
  a2b_base64_loop (dec_char (enc_char v) :: rest) leftchar leftbits quad_pos =
  let '(b, (lc, lb, qp)) := feed v leftchar leftbits quad_pos in
  emit b (a2b_base64_loop rest lc lb qp).
Proof.
  unfold char_ok. intros H.
  split_andb H.
  set (d := dec_char (enc_char v)) in *.
  cbn [a2b_base64_loop].
  repeat match goal with
         | Hx : negb ?x = true |- _ => apply negb_true_iff in Hx; try rewrite Hx
         end.
  cbn [orb].
  destruct (table_a2b_base64 d) as [v'|]; [|discriminate].
  match goal with Hx : (v' =? v) = true |- _ => apply Z.eqb_eq in Hx; subst v' end.
  unfold feed.
  destruct (8 <=? leftbits + 6); [|reflexivity].
  cbn [emit].
  destruct (a2b_base64_loop rest _ _ _). reflexivity.
Qed.

Definition sextet0 (a : byte) : Z := Z.shiftr (ord a) 2.
Definition sextet1 (a b : byte) : Z :=
  Z.lor (Z.shiftl (Z.land (ord a) 3) 4) (Z.shiftr (ord b) 4).
Definition sextet2 (b c : byte) : Z :=
  Z.lor (Z.shiftl (Z.land (ord b) 15) 2) (Z.shiftr (ord c) 6).
Definition sextet3 (c : byte) : Z := Z.land (ord c) 63.
Definition sextet1_last (a : byte) : Z := Z.shiftl (Z.land (ord a) 3) 4.
Definition sextet2_last (b : byte) : Z := Z.shiftl (Z.land (ord b) 15) 2.

Definition feed_eqb (x y : option byte * (Z * Z * Z)) : bool :=
  let '(bx, (lx, kx, qx)) := x in
  let '(by_, (ly, ky, qy)) := y in
  match bx, by_ with
  | Some p, Some q => Byte.eqb p q
  | None, None => true
  | _, _ => false
  end && (lx =? ly) && (kx =? ky) && (qx =? qy).

Lemma feed_eqb_eq x y : feed_eqb x y = true -> x = y.
Proof.
  destruct x as [bx [[lx kx] qx]], y as [by_ [[ly ky] qy]]. unfold feed_eqb.
  intros H. split_andb H.
  repeat match goal with Hx : (_ =? _) = true |- _ => apply Z.eqb_eq in Hx end.
  subst. destruct bx, by_; try discriminate; [|reflexivity].
  apply Byte.byte_dec_bl in H. subst. reflexivity.
Qed.

Lemma feed0 (a : byte) :
  char_ok (sextet0 a) = true /\
  feed (sextet0 a) 0 0 0 = (None, (sextet0 a, 6, 1)).
Proof.
  split; [|apply feed_eqb_eq]; revert a; apply forall_byte; vm_compute; reflexivity.
Qed.

Lemma feed1 (a b : byte) :
  char_ok (sextet1 a b) = true /\
  feed (sextet1 a b) (sextet0 a) 6 1 = (Some a, (Z.shiftr (ord b) 4, 4, 2)).
Proof.
  split; [|apply feed_eqb_eq]; revert a b; apply forall_byte2; vm_compute; reflexivity.
Qed.

Lemma feed2 (b c : byte) :
  char_ok (sextet2 b c) = true /\
  feed (sextet2 b c) (Z.shiftr (ord b) 4) 4 2 = (Some b, (Z.shiftr (ord c) 6, 2, 3)).
Proof.
  split; [|apply feed_eqb_eq]; revert b c; apply forall_byte2; vm_compute; reflexivity.
Qed.

Lemma feed3 (c : byte) :
  char_ok (sextet3 c) = true /\
  feed (sextet3 c) (Z.shiftr (ord c) 6) 2 3 = (Some c, (0, 0, 0)).
Proof.
  split; [|apply feed_eqb_eq]; revert c; apply forall_byte; vm_compute; reflexivity.
Qed.

Lemma feed1_last (a : byte) :
  char_ok (sextet1_last a) = true /\
  feed (sextet1_last a) (sextet0 a) 6 1 = (Some a, (0, 4, 2)).
Proof.
  split; [|apply feed_eqb_eq]; revert a; apply forall_byte; vm_compute; reflexivity.
Qed.

Lemma feed2_last (b : byte) :
  char_ok (sextet2_last b) = true /\
  feed (sextet2_last b) (Z.shiftr (ord b) 4) 4 2 = (Some b, (0, 2, 3)).
Proof.
  split; [|apply feed_eqb_eq]; revert b; apply forall_byte; vm_compute; reflexivity.
Qed.

(** Induction over a byte string three bytes at a time, the way Base64
    groups its input. *)
Lemma bytes_ind3 (P : bytes -> Prop) :
  P [] -> (forall a, P [a]) -> (forall a b, P [a; b]) ->
  (forall a b c rest, P rest -> P (a :: b :: c :: rest)) ->
  forall s, P s.
Proof.
  intros H0 H1 H2 H3.
  assert (H : forall s, P s /\ (forall a, P (a :: s)) /\ (forall a b, P (a :: b :: s))).
  { induction s as [|c s (IH0 & IH1 & IH2)].
    - auto.
    - repeat split; auto. }
  intros s. apply H.
Qed.

(** The encoded text, written with the named six-bit values. *)
Lemma urlsafe_groups_eq (s : bytes) :
  translate2 x2b x2f x2d x5f (b2a_base64_groups s) =
  match s with
  | [] => []
  | [a] => [enc_char (sextet0 a); enc_char (sextet1_last a);
            BASE64_PAD; BASE64_PAD]
  | [a; b] => [enc_char (sextet0 a); enc_char (sextet1 a b);
               enc_char (sextet2_last b); BASE64_PAD]
  | a :: b :: c :: rest =>
      enc_char (sextet0 a) :: enc_char (sextet1 a b)
      :: enc_char (sextet2 b c) :: enc_char (sextet3 c)
      :: translate2 x2b x2f x2d x5f (b2a_base64_groups rest)
  end.
Proof.
  destruct s as [|a [|b [|c rest]]]; reflexivity.
Qed.

Lemma a2b_loop_groups (s : bytes) :
  a2b_base64_loop
    (translate2 x2d x5f x2b x2f
       (translate2 x2b x2f x2d x5f (b2a_base64_groups s))) 0 0 0 = (s, 0).
Proof.
  induction s as [|a|a b|a b c rest IH] using bytes_ind3;
    rewrite urlsafe_groups_eq.
  - reflexivity.
  - cbn [translate2 map]. fold dec_char.
    destruct (feed0 a) as [K0 F0], (feed1_last a) as [K1 F1].
    rewrite (a2b_loop_char _ _ _ _ _ K0), F0. cbn [emit].
    rewrite (a2b_loop_char _ _ _ _ _ K1), F1. reflexivity.
  - cbn [translate2 map]. fold dec_char.
    destruct (feed0 a) as [K0 F0], (feed1 a b) as [K1 F1],
             (feed2_last b) as [K2 F2].
    rewrite (a2b_loop_char _ _ _ _ _ K0), F0. cbn [emit].
    rewrite (a2b_loop_char _ _ _ _ _ K1), F1.
    rewrite (a2b_loop_char _ _ _ _ _ K2), F2. reflexivity.
  - cbn [translate2 map]. fold dec_char.
    fold (translate2 x2b x2f x2d x5f (b2a_base64_groups rest)).
    fold (translate2 x2d x5f x2b x2f
            (translate2 x2b x2f x2d x5f (b2a_base64_groups rest))).
    destruct (feed0 a) as [K0 F0], (feed1 a b) as [K1 F1],
             (feed2 b c) as [K2 F2], (feed3 c) as [K3 F3].
    rewrite (a2b_loop_char _ _ _ _ _ K0), F0. cbn [emit].
    rewrite (a2b_loop_char _ _ _ _ _ K1), F1.
    rewrite (a2b_loop_char _ _ _ _ _ K2), F2.
    rewrite (a2b_loop_char _ _ _ _ _ K3), F3.
    rewrite IH. reflexivity.
Qed.

Lemma urlsafe_b64encode_eq (s : bytes) :
  urlsafe_b64encode s = translate2 x2b x2f x2d x5f (b2a_base64_groups s).
Proof.
  unfold urlsafe_b64encode, b2a_base64.
  change (-1) with (- len [x0a]).
  rewrite slice_prefix by discriminate. reflexivity.
Qed.

(** [urlsafe_b64decode] inverts [urlsafe_b64encode]. *)
Lemma urlsafe_b64decode_encode (s : bytes) :
  urlsafe_b64decode (urlsafe_b64encode s) = Ok s.
Proof.
  unfold urlsafe_b64decode, a2b_base64.
  rewrite urlsafe_b64encode_eq, a2b_loop_groups. reflexivity.
Qed.

(** A character that the whitespace and padding filters leave alone. *)
Definition plain_char (c : byte) : bool :=
  negb (Byte.eqb c x0d) && negb (Byte.eqb c x0a)
  && negb (Byte.eqb c x20) && negb (Byte.eqb c BASE64_PAD).

Lemma char_ok_plain (v : Z) : char_ok v = true -> plain_char (enc_char v) = true.
Proof.
  unfold char_ok, plain_char. intros H.
  split_andb H.
  repeat (apply andb_true_iff; split); assumption.
Qed.

Lemma plain_char_not_pad (c : byte) :
  plain_char c = true -> negb (Byte.eqb c x3d) = true.
Proof.
  unfold plain_char. intros H.
  split_andb H. assumption.
Qed.

Lemma Base64WSEncode_eq (s : bytes) :
  Base64WSEncode s =
  match s with
  | [] => []
  | [a] => [enc_char (sextet0 a); enc_char (sextet1_last a)]
  | [a; b] => [enc_char (sextet0 a); enc_char (sextet1 a b);
               enc_char (sextet2_last b)]
  | a :: b :: c :: rest =>
      enc_char (sextet0 a) :: enc_char (sextet1 a b)
      :: enc_char (sextet2 b c) :: enc_char (sextet3 c)
      :: Base64WSEncode rest
  end.
Proof.
  unfold Base64WSEncode. rewrite !urlsafe_b64encode_eq, urlsafe_groups_eq.
  destruct s as [|a [|b [|c rest]]]; [reflexivity| | |];
    pose proof (plain_char_not_pad _ (char_ok_plain _ (proj1 (feed0 a)))) as P0.
  - pose proof (plain_char_not_pad _ (char_ok_plain _ (proj1 (feed1_last a)))) as P1.
    cbn [remove_char filter]. rewrite P0, P1. reflexivity.
  - pose proof (plain_char_not_pad _ (char_ok_plain _ (proj1 (feed1 a b)))) as P1.
    pose proof (plain_char_not_pad _ (char_ok_plain _ (proj1 (feed2_last b)))) as P2.
    cbn [remove_char filter]. rewrite P0, P1, P2. reflexivity.
  - pose proof (plain_char_not_pad _ (char_ok_plain _ (proj1 (feed1 a b)))) as P1.
    pose proof (plain_char_not_pad _ (char_ok_plain _ (proj1 (feed2 b c)))) as P2.
    pose proof (plain_char_not_pad _ (char_ok_plain _ (proj1 (feed3 c)))) as P3.
    cbn [remove_char filter]. rewrite P0, P1, P2, P3.
    rewrite urlsafe_b64encode_eq. reflexivity.
Qed.

Lemma Base64WSEncode_plain (s : bytes) :
  forallb plain_char (Base64WSEncode s) = true.
Proof.
  induction s as [|a|a b|a b c rest IH] using bytes_ind3;
    rewrite Base64WSEncode_eq; cbn [forallb];
    rewrite ?IH, ?(char_ok_plain _ (proj1 (feed0 a))),
      ?(char_ok_plain _ (proj1 (feed1_last a))),
      ?(char_ok_plain _ (proj1 (feed1 a b))),
      ?(char_ok_plain _ (proj1 (feed2_last b))),
      ?(char_ok_plain _ (proj1 (feed2 b c))),
      ?(char_ok_plain _ (proj1 (feed3 c))); reflexivity.
Qed.

(** Joining the lines of [s] drops exactly its line-end characters. *)
Lemma join_splitlines_from (s cur : bytes) :
  join_empty (splitlines_from cur s) =
  cur ++ filter (fun c => negb (Byte.eqb c x0a) && negb (Byte.eqb c x0d)) s.
Proof.
  unfold join_empty.
  assert (H : forall n s cur, (length s <= n)%nat ->
    concat (splitlines_from cur s) =
    cur ++ filter (fun c => negb (Byte.eqb c x0a) && negb (Byte.eqb c x0d)) s).
  { clear. induction n as [|n IH]; intros s cur Hn.
    - destruct s; [|simpl in Hn; lia].
      destruct cur; simpl; rewrite ?app_nil_r; reflexivity.
    - destruct s as [|c rest].
      + destruct cur; simpl; rewrite ?app_nil_r; reflexivity.
      + simpl in Hn. cbn [splitlines_from filter].
        destruct (Byte.eqb c x0a) eqn:E1.
        * cbn [negb andb concat]. rewrite IH by lia. reflexivity.
        * destruct (Byte.eqb c x0d) eqn:E2; cbn [negb andb].
          -- destruct rest as [|c' rest'].
             ++ cbn [concat]. rewrite IH by (simpl; lia). reflexivity.
             ++ destruct (Byte.eqb c' x0a) eqn:E3; cbn [concat].
                ** rewrite IH by (simpl in Hn; lia).
                   cbn [filter]. rewrite E3. reflexivity.
                ** rewrite IH by (simpl in Hn |- *; lia). reflexivity.
          -- rewrite IH by lia. rewrite <- app_assoc. reflexivity. }
  apply (H (length s)). lia.
Qed.

Lemma filter_all {A} (p : A -> bool) (l : list A) :
  forallb p l = true -> filter p l = l.
Proof.
  induction l as [|x l IH]; [reflexivity|]. cbn [forallb filter].
  intros H. apply andb_true_iff in H. destruct H as [Hx Hl].
  rewrite Hx, IH by assumption. reflexivity.
Qed.

Lemma forallb_impl {A} (p q : A -> bool) (l : list A) :
  (forall x, p x = true -> q x = true) ->
  forallb p l = true -> forallb q l = true.
Proof.
  intros Hpq H. rewrite forallb_forall in *. auto.
Qed.

(** The filters of [Base64WSDecode] keep a text of plain characters. *)
Lemma strip_plain (s : bytes) :
  forallb plain_char s = true ->
  remove_char x20 (join_empty (splitlines s)) = s.
Proof.
  intros H. unfold splitlines. rewrite join_splitlines_from. cbn [app].
  rewrite filter_all.
  - unfold remove_char. apply filter_all.
    revert H. apply forallb_impl. unfold plain_char. intros c Hc.
    split_andb Hc. assumption.
  - revert H. apply forallb_impl. unfold plain_char. intros c Hc.
    split_andb Hc.
    apply andb_true_iff. split; assumption.
Qed.

(** The padding [Base64WSDecode] puts back. *)
Definition repad (s : bytes) : bytes :=
  let d := len s mod 4 in
  if d =? 2 then s ++ bs "==" else if d =? 3 then s ++ bs "=" else s.

Lemma len_cons4_mod {A} (a b c d : A) (l : list A) :
  len (a :: b :: c :: d :: l) mod 4 = len l mod 4.
Proof.
  rewrite !len_cons.
  replace (1 + (1 + (1 + (1 + len l)))) with (len l + 1 * 4) by lia.
  apply Z.mod_add. lia.
Qed.

Lemma repad_encode (s : bytes) :
  (len (Base64WSEncode s) mod 4 =? 1) = false /\
  repad (Base64WSEncode s) = urlsafe_b64encode s.
Proof.
  rewrite urlsafe_b64encode_eq.
  induction s as [|a|a b|a b c rest [IH1 IH2]] using bytes_ind3;
    rewrite Base64WSEncode_eq, urlsafe_groups_eq;
    try (split; reflexivity).
  unfold repad in *. rewrite len_cons4_mod. split; [exact IH1|].
  rewrite <- IH2.
  destruct (len (Base64WSEncode rest) mod 4 =? 2); [reflexivity|].
  destruct (len (Base64WSEncode rest) mod 4 =? 3); reflexivity.
Qed.

(** What [Base64WSDecode] does once the whitespace is gone. *)
Lemma Base64WSDecode_plain (s : bytes) :
  forallb plain_char s = true ->
  Base64WSDecode s =
  if len s mod 4 =? 1 then Raise (ValueError "Base64 decoding errors")
  else match urlsafe_b64decode (repad s) with
       | Raise (TypeError e) =>
           Raise (ValueError (String.append "Base64 decoding error: " e))
       | r => r
       end.
Proof.
  intros H. unfold Base64WSDecode. rewrite strip_plain by assumption.
  reflexivity.
Qed.

(** [Base64WSDecode] inverts [Base64WSEncode] on every byte string. *)
Lemma Base64WSDecode_Encode (s : bytes) :
  Base64WSDecode (Base64WSEncode s) = Ok s.
Proof.
  rewrite Base64WSDecode_plain by apply Base64WSEncode_plain.
  destruct (repad_encode s) as [-> ->].
  rewrite urlsafe_b64decode_encode. reflexivity.
Qed.

(** ** Slices of an envelope *)

Lemma len_length {A} (l : list A) (n : nat) : len l = Z.of_nat n -> length l = n.
Proof. unfold len. lia. Qed.

Lemma slice_from_app {A} (l1 l2 : list A) :
  slice (l1 ++ l2) (Some (len l1)) None = l2.
Proof.
  unfold slice, slice_bound. rewrite len_app.
  pose proof (len_nonneg l1). pose proof (len_nonneg l2).
  destruct (len l1 <? 0) eqn:E; [apply Z.ltb_lt in E; lia|].
  rewrite Z.min_l by lia.
  replace (Z.to_nat (len l1)) with (length l1) by (unfold len; lia).
  rewrite skipn_app, skipn_all, Nat.sub_diag. cbn [skipn app].
  apply firstn_all2. unfold len in *. lia.
Qed.

Lemma slice_to_app {A} (l1 l2 : list A) :
  slice (l1 ++ l2) None (Some (len l1)) = l1.
Proof.
  unfold slice, slice_bound. rewrite len_app.
  pose proof (len_nonneg l1). pose proof (len_nonneg l2).
  destruct (len l1 <? 0) eqn:E; [apply Z.ltb_lt in E; lia|].
  rewrite Z.min_l by lia. cbn [skipn Z.to_nat].
  replace (Z.to_nat (len l1 - 0)) with (length l1 + 0)%nat by (unfold len; lia).
  rewrite firstn_app_2. cbn [firstn]. apply app_nil_r.
Qed.

Lemma slice_suffix {A} (l1 l2 : list A) :
  l2 <> [] -> slice (l1 ++ l2) (Some (- len l2)) None = l2.
Proof.
  intros Hne. unfold slice, slice_bound. rewrite len_app.
  assert (0 < len l2).
  { destruct l2; [congruence|]. rewrite len_cons. pose proof (len_nonneg l2). lia. }
  pose proof (len_nonneg l1).
  destruct (- len l2 <? 0) eqn:E; [|apply Z.ltb_ge in E; lia].
  rewrite Z.max_r by lia.
  replace (Z.to_nat (- len l2 + (len l1 + len l2))) with (length l1)
    by (unfold len in *; lia).
  rewrite skipn_app, skipn_all, Nat.sub_diag. cbn [skipn app].
  apply firstn_all2. unfold len in *. lia.
Qed.

Lemma slice_middle {A} (l1 l2 l3 : list A) :
  l3 <> [] -> slice (l1 ++ l2 ++ l3) (Some (len l1)) (Some (- len l3)) = l2.
Proof.
  intros Hne. unfold slice, slice_bound. rewrite !len_app.
  assert (0 < len l3).
  { destruct l3; [congruence|]. rewrite len_cons. pose proof (len_nonneg l3). lia. }
  pose proof (len_nonneg l1). pose proof (len_nonneg l2).
  destruct (len l1 <? 0) eqn:E1; [apply Z.ltb_lt in E1; lia|].
  destruct (- len l3 <? 0) eqn:E2; [|apply Z.ltb_ge in E2; lia].
  rewrite Z.min_l, Z.max_r by lia.
  replace (Z.to_nat (len l1)) with (length l1) by (unfold len; lia).
  rewrite skipn_app, skipn_all, Nat.sub_diag. cbn [skipn app].
  replace (Z.to_nat (- len l3 + (len l1 + (len l2 + len l3)) - len l1))
    with (length l2 + 0)%nat by (unfold len in *; lia).
  rewrite firstn_app_2. cbn [firstn]. apply app_nil_r.
Qed.

(** ** CBC mode *)

Definition xor_byte_involutive_check (a b : byte) : bool :=
  Byte.eqb (xor_byte (xor_byte a b) b) a.

Lemma xor_byte_involutive (a b : byte) : xor_byte (xor_byte a b) b = a.
Proof.
  apply Byte.byte_dec_bl. revert a b.
  apply (forall_byte2 xor_byte_involutive_check). vm_compute. reflexivity.
Qed.

Lemma xor_bytes_length (a b : bytes) :
  length a = length b -> length (xor_bytes a b) = length a.
Proof.
  revert b. induction a as [|x a IH]; intros [|y b] H; simpl in *;
    try discriminate; [reflexivity|]. f_equal. apply IH. lia.
Qed.

Lemma xor_bytes_involutive (a b : bytes) :
  length a = length b -> xor_bytes (xor_bytes a b) b = a.
Proof.
  revert b. induction a as [|x a IH]; intros [|y b] H; simpl in *;
    try discriminate; [reflexivity|].
  rewrite xor_byte_involutive, IH by lia. reflexivity.
Qed.

Lemma blocks_of_concat (blocks : list bytes) :
  Forall (fun b => length b = 16%nat) blocks ->
  blocks_of (length blocks) (concat blocks) = blocks.
Proof.
  induction 1 as [|b blocks Hb _ IH]; [reflexivity|].
  cbn [length blocks_of concat].
  rewrite <- Hb.
  rewrite firstn_app, firstn_all, Nat.sub_diag, skipn_app, skipn_all,
    Nat.sub_diag. cbn [firstn skipn app].
  rewrite app_nil_r, IH. reflexivity.
Qed.

Lemma blocks_of_spec (k : nat) (data : bytes) :
  length data = (16 * k)%nat ->
  Forall (fun b => length b = 16%nat) (blocks_of k data) /\
  concat (blocks_of k data) = data /\
  length (blocks_of k data) = k.
Proof.
  revert data. induction k as [|k IH]; intros data H.
  - destruct data; [|simpl in H; lia]. repeat split. constructor.
  - cbn [blocks_of].
    destruct (IH (skipn 16 data)) as (F & C & L).
    { rewrite length_skipn. lia. }
    repeat split.
    + constructor; [|exact F]. rewrite length_firstn. lia.
    + cbn [concat]. rewrite C. apply firstn_skipn.
    + cbn [length]. rewrite L. reflexivity.
Qed.

Section CbcProperties.

Context {backend : CryptoBackend}.

Variable key : bytes.
Hypothesis key_ok : aes_key_ok key = true.

Lemma aes_encrypt_block_length16 (block : bytes) :
  length block = 16%nat -> length (aes_encrypt_block key block) = 16%nat.
Proof.
  intros H. apply len_length. apply aes_encrypt_block_length; [exact key_ok|].
  unfold len. rewrite H. reflexivity.
Qed.

Lemma cbc_encrypt_blocks_as_blocks (blocks : list bytes) (prev : bytes) :
  length prev = 16%nat ->
  Forall (fun b => length b = 16%nat) blocks ->
  exists cblocks,
    cbc_encrypt_blocks key prev blocks = concat cblocks /\
    length cblocks = length blocks /\
    Forall (fun b => length b = 16%nat) cblocks /\
    cbc_decrypt_blocks key prev cblocks = concat blocks.
Proof.
  intros Hprev H. revert prev Hprev.
  induction H as [|p blocks Hp _ IH]; intros prev Hprev.
  - exists []. repeat split. constructor.
  - cbn [cbc_encrypt_blocks].
    set (c := aes_encrypt_block key (xor_bytes p prev)).
    assert (Hx : length (xor_bytes p prev) = 16%nat).
    { rewrite xor_bytes_length; congruence. }
    assert (Hc : length c = 16%nat) by (apply aes_encrypt_block_length16; exact Hx).
    destruct (IH c Hc) as (cblocks & E & L & F & D).
    exists (c :: cblocks). cbn [concat length cbc_decrypt_blocks].
    rewrite E, L, D. repeat split; [constructor; assumption|].
    unfold c. rewrite aes_decrypt_encrypt_block;
      [|exact key_ok|unfold len; rewrite Hx; reflexivity].
    rewrite xor_bytes_involutive by congruence. reflexivity.
Qed.

(** CBC decryption gives back the data CBC encryption was run on, and the
    ciphertext is as long as the data. *)
Lemma cbc_roundtrip (iv data : bytes) :
  len iv = 16 -> len data mod 16 = 0 ->
  let ct := cbc_encrypt_blocks key iv
              (blocks_of (Z.to_nat (len data / 16)) data) in
  len ct = len data /\
  cbc_decrypt_blocks key iv (blocks_of (Z.to_nat (len ct / 16)) ct) = data.
Proof.
  intros Hiv Hmod ct.
  assert (Hlen : length data = (16 * Z.to_nat (len data / 16))%nat).
  { pose proof (Z.div_mod (len data) 16 ltac:(lia)) as E.
    pose proof (len_nonneg data). unfold len in *. lia. }
  destruct (blocks_of_spec _ _ Hlen) as (F & C & L).
  destruct (cbc_encrypt_blocks_as_blocks _ iv (len_length _ 16 Hiv) F)
    as (cblocks & E & Lc & Fc & D).
  fold ct in E.
  assert (Hct : len ct = len data).
  { rewrite E. unfold len. f_equal.
    rewrite Hlen, <- L, <- Lc. clear -Fc.
    induction Fc as [|b l Hb _ IH]; [reflexivity|].
    cbn [concat length]. rewrite length_app, IH, Hb. lia. }
  split; [exact Hct|].
  rewrite Hct, E. rewrite <- L, <- Lc at 1.
  rewrite blocks_of_concat by exact Fc. rewrite D. exact C.
Qed.

End CbcProperties.

(** ** The small backend satisfies the interface *)

Lemma cycle_to_length (n : nat) (pattern cur : bytes) :
  length (cycle_to n pattern cur) = n.
Proof.
  revert cur. induction n as [|n IH]; intros cur; [reflexivity|].
  cbn [cycle_to]. destruct cur as [|c cur]; [destruct pattern|];
    cbn [length]; rewrite IH; reflexivity.
Qed.

Lemma toy_block_length (key block : bytes) :
  length (toy_block key block) = length block.
Proof.
  unfold toy_block. apply xor_bytes_length. rewrite cycle_to_length. reflexivity.
Qed.

Lemma toy_block_involutive (key block : bytes) :
  toy_block key (toy_block key block) = block.
Proof.
  unfold toy_block at 1. rewrite toy_block_length. unfold toy_block.
  apply xor_bytes_involutive. rewrite cycle_to_length. reflexivity.
Qed.

#[export] Instance toy_backend : CryptoBackend.
Proof.
  refine {| aes_encrypt_block := toy_block;
            aes_decrypt_block := toy_block;
            hmac_sha1 := toy_digest |}.
  - intros key block _ H. unfold len in *. rewrite toy_block_length. exact H.
  - intros key block _ _. apply toy_block_involutive.
  - intros key msg. reflexivity.
Defined.

(** A runtime stub: its parser answers every document with the sample
    record below, a key file whose mode is not CBC. *)
Definition sample_key_record : pyval :=
  PyDict [(bs "hmacKey",
           PyDict [(bs "hmacKeyString",
                    PyStr (Base64WSEncode (bs "fedcba9876543210")));
                   (bs "size", PyInt 128)]);
          (bs "aesKeyString", PyStr (Base64WSEncode (bs "0123456789abcdef")));
          (bs "mode", PyStr (bs "ecb"));
          (bs "size", PyInt 128)].

#[export] Instance toy_runtime : PyRuntime :=
  {| json_loads := fun _ => Ok sample_key_record;
     int_of_str := fun _ => Raise (ValueError "invalid literal for int()") |}.

Definition sample_key_path : bytes := bs "/etc/st2/keys/datastore_key.json".

Definition sample_disk : World :=
  mkWorld (entropy sample_world)
          (fun path => if bytes_eqb path sample_key_path then Some [] else None)
          [].

(** ** Running a computation *)

Lemma bind_ok {A B} (m : M A) (k : A -> M B) (w w' : World) (a : A) :
  m w = (Ok a, w') -> bind m k w = k a w'.
Proof. intros H. unfold bind. rewrite H. reflexivity. Qed.

Lemma bind_raise {A B} (m : M A) (k : A -> M B) (w w' : World) (e : exn) :
  m w = (Raise e, w') -> bind m k w = (Raise e, w').
Proof. intros H. unfold bind. rewrite H. reflexivity. Qed.

Lemma bind_lift_ok {A B} (r : Result A) (k : A -> M B) (w : World) (a : A) :
  r = Ok a -> bind (lift r) k w = k a w.
Proof. intros ->. reflexivity. Qed.

Definition push (ev : Event) (w : World) : World :=
  mkWorld (entropy w) (files w) (ev :: trace w).

Definition drain (n : nat) (w : World) : World :=
  mkWorld (fun i => entropy w (n + i)%nat) (files w) (trace w).

Lemma os_urandom_eq (n : Z) (w : World) :
  0 <= n <= sys_maxsize ->
  os_urandom n w =
  (Ok (map (entropy w) (seq 0 (Z.to_nat n))),
   drain (Z.to_nat n) (push (EvUrandom n) w)).
Proof.
  intros H. unfold os_urandom.
  assert (Hm : 0 < sys_maxsize) by reflexivity.
  destruct (n <? - sys_maxsize - 1) eqn:E0; [apply Z.ltb_lt in E0; lia|].
  destruct (sys_maxsize <? n) eqn:E1; [apply Z.ltb_lt in E1; lia|].
  destruct (n <? 0) eqn:E; [apply Z.ltb_lt in E; lia|]. reflexivity.
Qed.

Lemma urandom_block_in_range : 0 <= 16 <= sys_maxsize.
Proof. split; discriminate. Qed.

Lemma len_urandom (w : World) (n : nat) :
  len (map (entropy w) (seq 0 n)) = Z.of_nat n.
Proof. unfold len. rewrite length_map, length_seq. reflexivity. Qed.

Section BackendCalls.

Context {backend : CryptoBackend}.

Lemma Cipher_eq (k iv : bytes) (w : World) :
  aes_key_ok k = true -> len iv = 16 ->
  Cipher k iv w = (Ok (mkCipher k iv), w).
Proof.
  intros Hk Hiv. unfold Cipher. rewrite Hk, Hiv. reflexivity.
Qed.


Lemma encryptor_eq (c : CipherCtx) (data : bytes) (w : World) :
  len data mod 16 = 0 ->
  encryptor_update_finalize c data w =
  (Ok (cbc_encrypt_blocks (cipher_key c) (cipher_iv c)
         (blocks_of (Z.to_nat (len data / 16)) data)),
   push (EvAesCbcEncrypt (cipher_key c) (cipher_iv c) data) w).
Proof.
  intros H. unfold encryptor_update_finalize. rewrite H. reflexivity.
Qed.

Lemma decryptor_eq (c : CipherCtx) (data : bytes) (w : World) :
  len data mod 16 = 0 ->
  decryptor_update_finalize c data w =
  (Ok (cbc_decrypt_blocks (cipher_key c) (cipher_iv c)
         (blocks_of (Z.to_nat (len data / 16)) data)),
   push (EvAesCbcDecrypt (cipher_key c) (cipher_iv c) data) w).
Proof.
  intros H. unfold decryptor_update_finalize. rewrite H. reflexivity.
Qed.

Lemma HMAC_finalize_eq (k msg : bytes) (w : World) :
  HMAC_finalize k msg w = (Ok (hmac_sha1 k msg), push (EvHmacSha1 k msg) w).
Proof. reflexivity. Qed.

Lemma HMAC_verify_ok (k msg signature : bytes) (w : World) :
  hmac_sha1 k msg = signature ->
  HMAC_verify k msg signature w = (Ok tt, push (EvHmacSha1 k msg) w).
Proof.
  intros <-. unfold HMAC_verify, bind. cbn [log].
  rewrite bytes_eqb_refl. reflexivity.
Qed.

Lemma HMAC_verify_fail (k msg signature : bytes) (w : World) :
  hmac_sha1 k msg <> signature ->
  HMAC_verify k msg signature w =
  (Raise InvalidSignature, push (EvHmacSha1 k msg) w).
Proof.
  intros H. unfold HMAC_verify, bind. cbn [log].
  rewrite bytes_eqb_neq by exact H. reflexivity.
Qed.

End BackendCalls.

Section EnvelopeProperties.

Context {backend : CryptoBackend}.

Variable key : AESKey.

(** The parts of the envelope [cryptography_symmetric_encrypt] builds for
    the plaintext [P] in the world [w]. *)
Definition envelope_iv (w : World) : bytes := map (entropy w) (seq 0 16).

Definition envelope_padded (P : bytes) : bytes :=
  P ++ str_mul (16 - len P mod 16) [byte_of_Z (16 - len P mod 16)].

Definition envelope_ciphertext (P : bytes) (w : World) : bytes :=
  cbc_encrypt_blocks (aes_key_bytes key) (envelope_iv w)
    (blocks_of (Z.to_nat (len (envelope_padded P) / 16)) (envelope_padded P)).

Definition envelope_message (P : bytes) (w : World) : bytes :=
  bs "00000" ++ envelope_iv w ++ envelope_ciphertext P w.

Definition envelope_signature (P : bytes) (w : World) : bytes :=
  hmac_sha1 (hmac_key_bytes key) (envelope_message P w).

Definition world_after_encrypt (P : bytes) (w : World) : World :=
  push (EvHmacSha1 (hmac_key_bytes key) (envelope_message P w))
    (push (EvAesCbcEncrypt (aes_key_bytes key) (envelope_iv w)
             (envelope_padded P))
       (drain 16 (push (EvUrandom 16) w))).

Lemma len_envelope_iv (w : World) : len (envelope_iv w) = 16.
Proof. apply (len_urandom w 16). Qed.

Lemma len_envelope_padded (P : bytes) : len (envelope_padded P) mod 16 = 0.
Proof. apply pkcs5_padded_length. Qed.

Lemma encrypt_eq (P : bytes) (w : World) :
  aes_key_ok (aes_key_bytes key) = true ->
  cryptography_symmetric_encrypt key P w =
  (Ok (upper (hexlify (envelope_message P w ++ envelope_signature P w))),
   world_after_encrypt P w).
Proof.
  intros Hkey. unfold cryptography_symmetric_encrypt.
  rewrite (bind_lift_ok _ _ _ _ (pkcs5_pad_eq P)).
  rewrite (bind_ok _ _ _ _ _ (os_urandom_eq 16 w urandom_block_in_range)).
  change (Z.to_nat 16) with 16%nat. fold (envelope_iv w). fold (envelope_padded P).
  rewrite (bind_ok _ _ _ _ _ (Cipher_eq _ _ _ Hkey (len_envelope_iv w))).
  rewrite (bind_ok _ _ _ _ _ (encryptor_eq _ _ _ (len_envelope_padded P))).
  cbn [cipher_key cipher_iv]. fold (envelope_ciphertext P w).
  rewrite (bind_ok _ _ _ _ _ (HMAC_finalize_eq _ _ _)).
  reflexivity.
Qed.


Lemma len_envelope_ciphertext (P : bytes) (w : World) :
  aes_key_ok (aes_key_bytes key) = true ->
  len (envelope_ciphertext P w) = len (envelope_padded P).
Proof.
  intros Hkey.
  apply (cbc_roundtrip _ Hkey (envelope_iv w) (envelope_padded P)
           (len_envelope_iv w) (len_envelope_padded P)).
Qed.

(** What [cryptography_symmetric_decrypt] does with a text that decodes
    to four parts of the sizes of header, IV, ciphertext and signature. *)
Lemma decrypt_parts (c hdr iv ct sig : bytes) (w : World) :
  unhexlify c = Ok (hdr ++ iv ++ ct ++ sig) ->
  len hdr = 5 -> len iv = 16 -> len sig = 20 ->
  cryptography_symmetric_decrypt key c w =
  (HMAC_verify (hmac_key_bytes key) (hdr ++ iv ++ ct) sig ;;;
   cipher <- Cipher (aes_key_bytes key) iv ;;
   decrypted <- decryptor_update_finalize cipher ct ;;
   decrypted <- lift (pkcs5_unpad decrypted) ;;
   ret decrypted) w.
Proof.
  intros Hc Hh Hi Hs. unfold cryptography_symmetric_decrypt.
  rewrite (bind_lift_ok _ _ _ _ Hc).
  assert (Hne : sig <> []) by (intros ->; discriminate).
  unfold KEYCZAR_HEADER_SIZE, KEYCZAR_AES_BLOCK_SIZE, KEYCZAR_HLEN.
  cbv zeta. rewrite <- Hh. rewrite !slice_from_app.
  pose proof (len_nonneg ct).
  destruct (len (iv ++ ct ++ sig) <? 16 + 20) eqn:E.
  { apply Z.ltb_lt in E. rewrite !len_app in E. lia. }
  rewrite <- Hi, <- Hs. rewrite slice_to_app, slice_middle by exact Hne.
  assert (E1 : slice (iv ++ ct ++ sig) (Some (- len sig)) None = sig).
  { rewrite app_assoc. apply slice_suffix, Hne. }
  assert (E2 : slice (hdr ++ iv ++ ct ++ sig) None (Some (- len sig))
               = hdr ++ iv ++ ct).
  { rewrite 2 app_assoc, <- (app_assoc hdr). apply slice_prefix, Hne. }
  rewrite E1, E2. reflexivity.
Qed.

Lemma len_slice_from {A} (l : list A) (k : Z) :
  0 <= k -> len (slice l (Some k) None) = Z.max 0 (len l - k).
Proof.
  intros Hk. unfold slice, slice_bound.
  destruct (k <? 0) eqn:E; [apply Z.ltb_lt in E; lia|].
  pose proof (len_nonneg l) as Hl. unfold len in *.
  rewrite length_firstn, length_skipn. lia.
Qed.

Lemma decrypt_too_short (c decoded : bytes) (w : World) :
  unhexlify c = Ok decoded -> len decoded < 41 ->
  cryptography_symmetric_decrypt key c w =
  (Raise (Exception "Invalid ciphertext (too short)"), w).
Proof.
  intros Hc Hlen. unfold cryptography_symmetric_decrypt.
  rewrite (bind_lift_ok _ _ _ _ Hc). cbv zeta.
  unfold KEYCZAR_HEADER_SIZE, KEYCZAR_AES_BLOCK_SIZE, KEYCZAR_HLEN.
  rewrite len_slice_from by lia.
  destruct (Z.max 0 (len decoded - 5) <? 16 + 20) eqn:E; [reflexivity|].
  apply Z.ltb_ge in E. lia.
Qed.

Lemma split_envelope (decoded : bytes) :
  41 <= len decoded ->
  exists hdr iv ct sig,
    decoded = hdr ++ iv ++ ct ++ sig /\
    len hdr = 5 /\ len iv = 16 /\ len sig = 20.
Proof.
  intros H.
  set (rest := skipn 16 (skipn 5 decoded)).
  exists (firstn 5 decoded), (firstn 16 (skipn 5 decoded)),
    (firstn (length rest - 20) rest), (skipn (length rest - 20) rest).
  rewrite !firstn_skipn.
  assert (Hrest : length rest = (length decoded - 21)%nat).
  { unfold rest. rewrite !length_skipn. lia. }
  unfold len in *.
  rewrite !length_firstn, !length_skipn. repeat split; lia.
Qed.

(** Number of AES decryptions a trace records. *)
Definition aes_decryptions (t : list Event) : nat :=
  List.length (filter (fun ev => match ev with
                                 | EvAesCbcDecrypt _ _ _ => true
                                 | _ => false
                                 end) t).

(** A text whose signature does not verify is refused when the HMAC is
    checked: nothing after the check runs. *)
Lemma decrypt_bad_signature (c decoded : bytes) (w : World) :
  unhexlify c = Ok decoded -> 41 <= len decoded ->
  slice decoded (Some (- KEYCZAR_HLEN)) None <>
    hmac_sha1 (hmac_key_bytes key) (slice decoded None (Some (- KEYCZAR_HLEN))) ->
  cryptography_symmetric_decrypt key c w =
  (Raise InvalidSignature,
   push (EvHmacSha1 (hmac_key_bytes key)
           (slice decoded None (Some (- KEYCZAR_HLEN)))) w).
Proof.
  intros Hc Hlen Hsig.
  destruct (split_envelope decoded Hlen) as (hdr & iv & ct & sig & E & Hh & Hi & Hs).
  subst decoded.
  assert (Hne : sig <> []) by (intros ->; discriminate).
  unfold KEYCZAR_HLEN in *. rewrite <- Hs in Hsig |- *.
  assert (E1 : slice (hdr ++ iv ++ ct ++ sig) (Some (- len sig)) None = sig).
  { rewrite 2 app_assoc, <- (app_assoc hdr). apply slice_suffix, Hne. }
  assert (E2 : slice (hdr ++ iv ++ ct ++ sig) None (Some (- len sig))
               = hdr ++ iv ++ ct).
  { rewrite 2 app_assoc, <- (app_assoc hdr). apply slice_prefix, Hne. }
  rewrite E1, E2 in Hsig. rewrite E2.
  rewrite (decrypt_parts _ _ _ _ _ _ Hc Hh Hi Hs).
  apply bind_raise. apply HMAC_verify_fail. congruence.
Qed.


End EnvelopeProperties.


(** * The envelope *)



(** The round trip evaluated on plaintexts of 0, 1, 15, 16, 17, 31 and 100
    bytes. *)
Definition roundtrip_on (P : bytes) : bool :=
  match cryptography_symmetric_encrypt sample_key P sample_world with
  | (Ok c, w1) =>
      match fst (cryptography_symmetric_decrypt sample_key c w1) with
      | Ok P' => bytes_eqb P' P
      | Raise _ => false
      end
  | (Raise _, _) => false
  end.

Example roundtrip_listed_lengths :
  forallb (fun n => roundtrip_on (str_mul n (bs "x"))) [0; 1; 15; 16; 17; 31; 100]
  = true.
Proof. vm_compute. reflexivity. Qed.

(** C2, as the code has it. A text that decodes to at least 41 bytes and
    whose last 20 bytes are not the HMAC-SHA1 of the bytes before them
    makes decryption raise [InvalidSignature]; the only backend call made
    is the HMAC computation, so no AES decryption runs and no plaintext is
    returned. A shorter text is refused before the signature is looked
    at, with the too-short error, and no backend call at all. *)
Theorem decrypt_verifies_before_deciphering {backend : CryptoBackend}
    (key : AESKey) (c decoded : bytes) (w : World) :
  unhexlify c = Ok decoded ->
  slice decoded (Some (-20)) None <>
    hmac_sha1 (hmac_key_bytes key) (slice decoded None (Some (-20))) ->
  exists e w',
    cryptography_symmetric_decrypt key c w = (Raise e, w') /\
    aes_decryptions (trace w') = aes_decryptions (trace w) /\
    (41 <= len decoded ->
       e = InvalidSignature /\
       trace w' = EvHmacSha1 (hmac_key_bytes key)
                    (slice decoded None (Some (-20))) :: trace w) /\
    (len decoded < 41 ->
       e = Exception "Invalid ciphertext (too short)" /\ w' = w).
Proof.
  intros Hc Hsig.
  destruct (Z_lt_le_dec (len decoded) 41) as [Hshort|Hlong].
  - eexists _, _. split; [apply (decrypt_too_short key c decoded w Hc Hshort)|].
    split; [reflexivity|]. split; [lia|]. intros _. split; reflexivity.
  - eexists _, _.
    split; [apply (decrypt_bad_signature key c decoded w Hc Hlong Hsig)|].
    split; [reflexivity|]. split; [|lia]. intros _. split; reflexivity.
Qed.

(** A 41-byte text with a wrong signature. *)
Lemma decrypt_verifies_before_deciphering_witness :
  let c := str_mul 82 (bs "0") in
  let decoded := str_mul 41 [x00] in
  unhexlify c = Ok decoded /\
  slice decoded (Some (-20)) None <>
    hmac_sha1 (hmac_key_bytes sample_key) (slice decoded None (Some (-20))) /\
  exists e w',
    cryptography_symmetric_decrypt sample_key c sample_world = (Raise e, w') /\
    aes_decryptions (trace w') = aes_decryptions (trace sample_world) /\
    e = InvalidSignature.
Proof.
  intros c decoded.
  assert (Hc : unhexlify c = Ok decoded) by reflexivity.
  assert (Hsig : slice decoded (Some (-20)) None <>
    hmac_sha1 (hmac_key_bytes sample_key) (slice decoded None (Some (-20))))
    by (vm_compute; discriminate).
  split; [exact Hc|]. split; [exact Hsig|].
  destruct (decrypt_verifies_before_deciphering sample_key c decoded
              sample_world Hc Hsig) as (e & w' & E & T & Hlong & _).
  exists e, w'. split; [exact E|]. split; [exact T|].
  apply Hlong. vm_compute. discriminate.
Defined.

(** C2 as stated fails: a text of valid hexadecimal digits that decodes to
    40 bytes, whose last 20 bytes are not the HMAC of the first 20, is
    refused as too short and not with [InvalidSignature]. *)
Lemma decrypt_short_text_is_not_signature_error :
  let c := str_mul 80 (bs "0") in
  let decoded := str_mul 40 [x00] in
  unhexlify c = Ok decoded /\
  slice decoded (Some (-20)) None <>
    hmac_sha1 (hmac_key_bytes sample_key) (slice decoded None (Some (-20))) /\
  fst (cryptography_symmetric_decrypt sample_key c sample_world)
    = Raise (Exception "Invalid ciphertext (too short)") /\
  fst (cryptography_symmetric_decrypt sample_key c sample_world)
    <> Raise InvalidSignature.
Proof.
  intros c decoded. split; [reflexivity|].
  split; [vm_compute; discriminate|].
  split; [vm_compute; reflexivity|vm_compute; discriminate].
Qed.

Lemma envelope_ciphertext_blocks {backend : CryptoBackend}
    (key : AESKey) (P : bytes) (w : World) :
  aes_key_ok (aes_key_bytes key) = true ->
  len (envelope_ciphertext key P w) mod 16 = 0 /\
  16 <= len (envelope_ciphertext key P w).
Proof.
  intros Hkey. rewrite (len_envelope_ciphertext key P w Hkey).
  pose proof (len_envelope_padded P) as Hm. split; [exact Hm|].
  pose proof (pad_length_range P) as Hn. unfold KEYCZAR_AES_BLOCK_SIZE in Hn.
  assert (Hpos : 0 < len (envelope_padded P)).
  { unfold envelope_padded.
    rewrite len_app, str_mul_single_length by lia.
    pose proof (len_nonneg P). lia. }
  pose proof (Z.div_mod (len (envelope_padded P)) 16 ltac:(lia)). lia.
Qed.

(** C3, as the code has it. The message that encryption signs and emits
    is the header, the 16-byte IV and the ciphertext, in this order, and
    the header is the five characters "00000": five bytes of value 0x30,
    the digit zero, not of value 0x00. *)
Theorem encrypt_message_layout {backend : CryptoBackend}
    (key : AESKey) (P : bytes) (w : World) :
  aes_key_ok (aes_key_bytes key) = true ->
  exists header iv ct w1,
    let msg := header ++ iv ++ ct in
    cryptography_symmetric_encrypt key P w =
      (Ok (upper (hexlify (msg ++ hmac_sha1 (hmac_key_bytes key) msg))), w1) /\
    hd_error (trace w1) = Some (EvHmacSha1 (hmac_key_bytes key) msg) /\
    header = [x30; x30; x30; x30; x30] /\
    iv = map (entropy w) (seq 0 16) /\ len iv = 16 /\
    ct = envelope_ciphertext key P w.
Proof.
  intros Hkey.
  exists (bs "00000"), (envelope_iv w), (envelope_ciphertext key P w),
    (world_after_encrypt key P w).
  cbv zeta. split; [apply (encrypt_eq key P w Hkey)|].
  repeat split.
Qed.

Lemma encrypt_message_layout_witness :
  aes_key_ok (aes_key_bytes sample_key) = true /\
  exists header iv ct w1,
    let msg := header ++ iv ++ ct in
    cryptography_symmetric_encrypt sample_key (bs "secret") sample_world =
      (Ok (upper (hexlify (msg ++ hmac_sha1 (hmac_key_bytes sample_key) msg))),
       w1) /\
    hd_error (trace w1) = Some (EvHmacSha1 (hmac_key_bytes sample_key) msg) /\
    header = [x30; x30; x30; x30; x30] /\
    iv = map (entropy sample_world) (seq 0 16) /\ len iv = 16 /\
    ct = envelope_ciphertext sample_key (bs "secret") sample_world.
Proof.
  split; [reflexivity|].
  apply (encrypt_message_layout sample_key (bs "secret") sample_world).
  reflexivity.
Defined.

(** C3 as stated fails: the first five bytes of what encryption emits,
    and of the message it signs, have the value 0x30 and not 0x00. *)
Lemma encrypt_header_is_not_zero_bytes :
  let r := cryptography_symmetric_encrypt sample_key (bs "secret") sample_world in
  exists c decoded msg,
    fst r = Ok c /\ unhexlify c = Ok decoded /\
    hd_error (trace (snd r)) = Some (EvHmacSha1 (hmac_key_bytes sample_key) msg) /\
    firstn 5 decoded = [x30; x30; x30; x30; x30] /\
    firstn 5 msg = [x30; x30; x30; x30; x30] /\
    firstn 5 decoded <> [x00; x00; x00; x00; x00] /\
    firstn 5 msg <> [x00; x00; x00; x00; x00].
Proof.
  cbv zeta. eexists _, _, _.
  split; [vm_compute; reflexivity|].
  split; [vm_compute; reflexivity|].
  split; [vm_compute; reflexivity|].
  repeat split; vm_compute; congruence.
Qed.

(** C10. A text that decodes to fewer than 41 bytes (5 of header, 16 of
    IV, 20 of signature) is refused by decryption as too short. What
    encryption returns is the upper-case hexadecimal text of header, IV,
    ciphertext and signature: it decodes to [5 + 16 + len(ciphertext) + 20]
    bytes, and the ciphertext is a positive number of 16-byte blocks. *)
Theorem envelope_length_invariant {backend : CryptoBackend} (key : AESKey) :
  (forall (c decoded : bytes) (w : World),
     unhexlify c = Ok decoded -> len decoded < 41 ->
     cryptography_symmetric_decrypt key c w =
       (Raise (Exception "Invalid ciphertext (too short)"), w)) /\
  (forall (P : bytes) (w : World),
     aes_key_ok (aes_key_bytes key) = true ->
     exists header iv ct sig hex w1,
       cryptography_symmetric_encrypt key P w = (Ok hex, w1) /\
       hex = upper (hexlify (header ++ iv ++ ct ++ sig)) /\
       forallb is_upper_hex_digit hex = true /\
       unhexlify hex = Ok (header ++ iv ++ ct ++ sig) /\
       len (header ++ iv ++ ct ++ sig) = 5 + 16 + len ct + 20 /\
       len header = 5 /\ len iv = 16 /\ len sig = 20 /\
       sig = hmac_sha1 (hmac_key_bytes key) (header ++ iv ++ ct) /\
       ct = envelope_ciphertext key P w /\
       len ct mod 16 = 0 /\ 16 <= len ct).
Proof.
  split.
  - intros c decoded w. apply decrypt_too_short.
  - intros P w Hkey.
    destruct (envelope_ciphertext_blocks key P w Hkey) as [Hm Hge].
    assert (E : envelope_message key P w ++ envelope_signature key P w =
                bs "00000" ++ envelope_iv w ++ envelope_ciphertext key P w
                  ++ envelope_signature key P w).
    { unfold envelope_message. rewrite <- !app_assoc. reflexivity. }
    exists (bs "00000"), (envelope_iv w), (envelope_ciphertext key P w),
      (envelope_signature key P w),
      (upper (hexlify (bs "00000" ++ envelope_iv w
                         ++ envelope_ciphertext key P w
                         ++ envelope_signature key P w))),
      (world_after_encrypt key P w).
    split; [rewrite <- E; apply (encrypt_eq key P w Hkey)|].
    split; [reflexivity|].
    split; [apply upper_hexlify_digits|].
    split; [apply unhexlify_hexlify|].
    assert (Hs : len (envelope_signature key P w) = 20)
      by apply hmac_sha1_length.
    pose proof (len_envelope_iv w) as Hi.
    split.
    { rewrite !len_app, Hi, Hs. change (len (bs "00000")) with 5. lia. }
    repeat split; assumption.
Qed.

Lemma envelope_length_invariant_witness :
  (unhexlify (bs "00FF") = Ok [x00; xff] /\ len [x00; xff] < 41 /\
   cryptography_symmetric_decrypt sample_key (bs "00FF") sample_world =
     (Raise (Exception "Invalid ciphertext (too short)"), sample_world)) /\
  (aes_key_ok (aes_key_bytes sample_key) = true /\
   exists header iv ct sig hex w1,
     cryptography_symmetric_encrypt sample_key (bs "secret") sample_world
       = (Ok hex, w1) /\
     hex = upper (hexlify (header ++ iv ++ ct ++ sig)) /\
     forallb is_upper_hex_digit hex = true /\
     unhexlify hex = Ok (header ++ iv ++ ct ++ sig) /\
     len (header ++ iv ++ ct ++ sig) = 5 + 16 + len ct + 20 /\
     len header = 5 /\ len iv = 16 /\ len sig = 20 /\
     sig = hmac_sha1 (hmac_key_bytes sample_key) (header ++ iv ++ ct) /\
     ct = envelope_ciphertext sample_key (bs "secret") sample_world /\
     len ct mod 16 = 0 /\ 16 <= len ct).
Proof.
  destruct (envelope_length_invariant sample_key) as [Hshort Henc].
  split.
  - split; [reflexivity|]. split; [reflexivity|].
    apply (Hshort (bs "00FF") [x00; xff] sample_world); reflexivity.
  - split; [reflexivity|].
    apply (Henc (bs "secret") sample_world). reflexivity.
Defined.

(** * The padding codec on arbitrary input *)

(** C8, as the code has it. [pkcs5_unpad] reads the value [n] of the last
    byte. On empty data there is no last byte and it fails, with
    [IndexError]. When [1 <= n <= len(data)] it returns the data without
    its last [n] bytes. When [n] exceeds the length it does not fail: the
    slice is empty, and so it is for [n = 0]. *)
Theorem pkcs5_unpad_spec :
  pkcs5_unpad [] = Raise (IndexError "string index out of range") /\
  (forall (body : bytes) (c : byte),
     let data := body ++ [c] in
     let n := ord c in
     (1 <= n <= len data ->
      pkcs5_unpad data = Ok (firstn (Z.to_nat (len data - n)) data)) /\
     (len data < n \/ n = 0 -> pkcs5_unpad data = Ok [])).
Proof.
  split; [reflexivity|].
  intros body c data n. subst data n.
  unfold pkcs5_unpad. rewrite getitem_last. cbn [bindR].
  unfold slice, slice_bound. cbn [skipn Z.to_nat].
  pose proof (len_nonneg (body ++ [c])) as Hl.
  pose proof (ord_range c) as Hc.
  split.
  - intros H. destruct (- ord c <? 0) eqn:E; [|apply Z.ltb_ge in E; lia].
    rewrite Z.max_r by lia. do 2 f_equal. lia.
  - intros H. f_equal.
    destruct (- ord c <? 0) eqn:E.
    + destruct H as [H|H]; [|apply Z.ltb_lt in E; lia].
      rewrite Z.max_l by lia. reflexivity.
    + apply Z.ltb_ge in E. replace (ord c) with 0 by lia.
      cbn [Z.opp]. rewrite Z.min_l by lia. reflexivity.
Qed.

Lemma pkcs5_unpad_spec_witness :
  pkcs5_unpad [] = Raise (IndexError "string index out of range") /\
  (1 <= ord x02 <= len (bs "ab" ++ [x02; x02]) /\
   pkcs5_unpad (bs "ab" ++ [x02; x02]) = Ok (bs "ab")) /\
  (len (bs "ab" ++ [x09]) < ord x09 /\
   pkcs5_unpad (bs "ab" ++ [x09]) = Ok []) /\
  (ord x00 = 0 /\ pkcs5_unpad (bs "ab" ++ [x00]) = Ok []).
Proof.
  destruct pkcs5_unpad_spec as [Hempty H].
  split; [exact Hempty|].
  split.
  { assert (Hn : 1 <= ord x02 <= len (bs "ab" ++ [x02; x02]))
      by (vm_compute; split; discriminate).
    split; [exact Hn|].
    apply (proj1 (H (bs "ab" ++ [x02]) x02) Hn). }
  split.
  { split; [reflexivity|].
    apply (proj2 (H (bs "ab") x09)). left. reflexivity. }
  split; [reflexivity|].
  apply (proj2 (H (bs "ab") x00)). right. reflexivity.
Defined.

(** C8 as stated fails: the single byte 0x05 announces five bytes of
    padding, more than the data holds, and [pkcs5_unpad] returns the empty
    string instead of failing. *)
Lemma pkcs5_unpad_overlong_padding_accepted :
  len [x05] < ord x05 /\
  pkcs5_unpad [x05] = Ok [] /\
  ~ (exists e, pkcs5_unpad [x05] = Raise e).
Proof.
  split; [reflexivity|]. split; [reflexivity|].
  intros [e H]. discriminate H.
Qed.

(** * The key model *)

Lemma map_entropy_shift (f : nat -> byte) (n k start : nat) :
  map (fun i => f (n + i)%nat) (seq start k) = map f (seq (n + start) k).
Proof.
  revert start. induction k as [|k IH]; intros start; [reflexivity|].
  cbn [seq map]. rewrite IH, Nat.add_succ_r. reflexivity.
Qed.

Lemma AESKey_init_eq {rt : PyRuntime}
    (aes hmac : bytes) (hsize size : pyval) (m : bytes)
    (z : Z) (hb ab : bytes) :
  py_int size = Ok z ->
  Base64WSDecode hmac = Ok hb -> Base64WSDecode aes = Ok ab ->
  AESKey_init (PyStr aes) (PyStr hmac) hsize (PyStr m) size =
  Ok (mkAESKey aes hmac hsize (upper m) z hb ab).
Proof.
  intros Hz Hh Ha. unfold AESKey_init. cbn [py_upper py_str bindR].
  rewrite Hz. cbn [bindR]. rewrite Hh. cbn [bindR]. rewrite Ha. reflexivity.
Qed.


(** A negative size is refused by [os.urandom]: with [ValueError], or
    with [OverflowError] when its eighth is below the range of a
    [Py_ssize_t]. *)
Lemma generate_negative_size {rt : PyRuntime} (key_size : Z) (w : World) :
  key_size < 0 ->
  exists msg,
    generate key_size w = (Raise (ValueError msg), w) \/
    generate key_size w = (Raise (OverflowError msg), w).
Proof.
  intros H. unfold generate, bind, os_urandom.
  assert (E : key_size / 8 < 0) by (apply Z.div_lt_upper_bound; lia).
  apply Z.ltb_lt in E. rewrite E.
  destruct ((key_size / 8 <? - sys_maxsize - 1) || (sys_maxsize <? key_size / 8));
    eexists; [right|left]; reflexivity.
Qed.

(** A size whose eighth is more than [sys.maxsize] is refused by
    [os.urandom] with [OverflowError]: no key is returned. *)
Lemma generate_too_large {rt : PyRuntime} (key_size : Z) (w : World) :
  sys_maxsize < key_size / 8 ->
  exists msg, generate key_size w = (Raise (OverflowError msg), w).
Proof.
  intros H. unfold generate, bind, os_urandom.
  apply Z.ltb_lt in H. rewrite H, orb_true_r. eexists. reflexivity.
Qed.



Lemma read_file_eq (path content : bytes) (w : World) :
  files w path = Some content ->
  read_file path w = (Ok content, push (EvOpen path) w).
Proof.
  intros H. unfold read_file, bind. cbn [log files]. rewrite H. reflexivity.
Qed.

(** C6, as the code has it. Neither [AESKey.__init__] nor
    [read_crypto_key] looks at what the mode is: a record with well-formed
    key strings and any mode string at all loads, and the key keeps the
    mode in upper case. No error is raised for a mode other than CBC. *)
Theorem read_crypto_key_accepts_any_mode {rt : PyRuntime}
    (key_path content aes hmac m : bytes) (record hmac_record hsize size : pyval)
    (z : Z) (hb ab : bytes) (w : World) :
  files w key_path = Some content ->
  json_loads content = Ok record ->
  py_getitem record (bs "aesKeyString") = Ok (PyStr aes) ->
  py_getitem record (bs "hmacKey") = Ok hmac_record ->
  py_getitem hmac_record (bs "hmacKeyString") = Ok (PyStr hmac) ->
  py_getitem hmac_record (bs "size") = Ok hsize ->
  py_getitem record (bs "mode") = Ok (PyStr m) ->
  py_getitem record (bs "size") = Ok size ->
  py_int size = Ok z ->
  Base64WSDecode hmac = Ok hb -> Base64WSDecode aes = Ok ab ->
  AESKey_init (PyStr aes) (PyStr hmac) hsize (PyStr m) size =
    Ok (mkAESKey aes hmac hsize (upper m) z hb ab) /\
  read_crypto_key key_path w =
    (Ok (mkAESKey aes hmac hsize (upper (upper m)) z hb ab),
     push (EvOpen key_path) w).
Proof.
  intros Hf Hj Ha Hk Hs Hhs Hm Hsz Hz Hhb Hab.
  split; [apply AESKey_init_eq; assumption|].
  unfold read_crypto_key.
  rewrite (bind_ok _ _ _ _ _ (read_file_eq _ _ _ Hf)).
  rewrite (bind_lift_ok _ _ _ _ Hj), (bind_lift_ok _ _ _ _ Ha).
  rewrite (bind_lift_ok _ _ _ _ Hk), (bind_lift_ok _ _ _ _ Hs).
  rewrite (bind_lift_ok _ _ _ _ Hk), (bind_lift_ok _ _ _ _ Hhs).
  rewrite (bind_lift_ok _ _ _ _ Hm).
  rewrite (bind_lift_ok (py_upper (PyStr m)) _ _ (upper m) eq_refl).
  rewrite (bind_lift_ok _ _ _ _ Hsz).
  unfold lift. rewrite (AESKey_init_eq aes hmac hsize size (upper m) z hb ab);
    [reflexivity|assumption..].
Qed.

Lemma read_crypto_key_accepts_any_mode_witness :
  AESKey_init (PyStr (Base64WSEncode (bs "0123456789abcdef")))
              (PyStr (Base64WSEncode (bs "fedcba9876543210")))
              (PyInt 128) (PyStr (bs "ecb")) (PyInt 128) =
    Ok (mkAESKey (Base64WSEncode (bs "0123456789abcdef"))
                 (Base64WSEncode (bs "fedcba9876543210"))
                 (PyInt 128) (bs "ECB") 128
                 (bs "fedcba9876543210") (bs "0123456789abcdef")) /\
  read_crypto_key sample_key_path sample_disk =
    (Ok (mkAESKey (Base64WSEncode (bs "0123456789abcdef"))
                  (Base64WSEncode (bs "fedcba9876543210"))
                  (PyInt 128) (bs "ECB") 128
                  (bs "fedcba9876543210") (bs "0123456789abcdef")),
     push (EvOpen sample_key_path) sample_disk).
Proof.
  apply (read_crypto_key_accepts_any_mode sample_key_path [] _ _ (bs "ecb")
           sample_key_record
           (PyDict [(bs "hmacKeyString",
                     PyStr (Base64WSEncode (bs "fedcba9876543210")));
                    (bs "size", PyInt 128)])
           (PyInt 128) (PyInt 128) 128
           (bs "fedcba9876543210") (bs "0123456789abcdef") sample_disk);
    reflexivity.
Defined.

(** C6 as stated fails: a key built with the mode ECB is built without
    error, and so is the key read from a record whose mode is "ecb". *)
Lemma AESKey_with_mode_ecb_is_accepted :
  bs "ECB" <> bs "CBC" /\
  (exists key,
     AESKey_init (PyStr (Base64WSEncode (bs "0123456789abcdef")))
                 (PyStr (Base64WSEncode (bs "fedcba9876543210")))
                 (PyInt 128) (PyStr (bs "ECB")) (PyInt 128) = Ok key /\
     mode key = bs "ECB") /\
  (exists key,
     fst (read_crypto_key sample_key_path sample_disk) = Ok key /\
     mode key = bs "ECB").
Proof.
  split; [discriminate|].
  split; eexists; (split; [vm_compute; reflexivity|reflexivity]).
Qed.

(** * The Base64 codec on arbitrary input *)

(** The cases [Base64WSDecode] makes on the length of the text once
    blanks and line ends are gone: a remainder of 1 modulo 4 is an error,
    a remainder of 2 or 3 gets two or one pad characters, a remainder of 0
    is decoded as it is; a [TypeError] of the decoder becomes a
    [ValueError]. *)
Lemma Base64WSDecode_cases (s : bytes) :
  let t := remove_char x20 (join_empty (splitlines s)) in
  let decode (u : bytes) :=
    match urlsafe_b64decode u with
    | Raise (TypeError e) =>
        Raise (ValueError (String.append "Base64 decoding error: " e))
    | r => r
    end in
  t = filter (fun c => negb (Byte.eqb c x20))
        (filter (fun c => negb (Byte.eqb c x0a) && negb (Byte.eqb c x0d)) s) /\
  0 <= len t mod 4 < 4 /\
  (len t mod 4 = 0 -> Base64WSDecode s = decode t) /\
  (len t mod 4 = 1 ->
   Base64WSDecode s = Raise (ValueError "Base64 decoding errors")) /\
  (len t mod 4 = 2 -> Base64WSDecode s = decode (t ++ bs "==")) /\
  (len t mod 4 = 3 -> Base64WSDecode s = decode (t ++ bs "=")).
Proof.
  intros t decode. split.
  { unfold t, splitlines, remove_char. rewrite join_splitlines_from. reflexivity. }
  split; [apply Z.mod_pos_bound; lia|].
  unfold Base64WSDecode. fold t. cbv zeta.
  repeat split; intros ->; reflexivity.
Qed.

(** C9, where the code departs from it. Characters outside the URL-safe
    alphabet do not make [Base64WSDecode] fail: the decoder of Python 2
    drops them. "YWJj!!!!" decodes to "abc" although "!" is no Base64
    character, and "+//+" is decoded although "+" and "/" are not in the
    URL-safe alphabet. *)
Theorem Base64WSDecode_ignores_invalid_characters :
  Base64WSDecode (bs "YWJj!!!!") = Ok (bs "abc") /\
  Base64WSDecode (bs "YWJj") = Ok (bs "abc") /\
  Base64WSDecode (bs "+//+") = Ok [xfb; xff; xfe] /\
  Base64WSDecode (bs "-__-") = Ok [xfb; xff; xfe].
Proof. repeat split; vm_compute; reflexivity. Qed.

(** The other parts of C9 hold: a text whose length is 1 modulo 4 is
    refused, and decoding inverts encoding. *)
Example Base64WSDecode_length_rem1 :
  Base64WSDecode (bs "YWJjZ") = Raise (ValueError "Base64 decoding errors").
Proof. reflexivity. Qed.

(** * Tampering with an envelope *)

(** The byte [b] with its bit [k] inverted, and the byte string [d] with its
    bit [i] inverted, bits being counted from the low end of the first
    byte. *)
Definition flip_bit_of_byte (k : nat) (b : byte) : byte :=
  byte_of_Z (Z.lxor (ord b) (Z.shiftl 1 (Z.of_nat k))).

Fixpoint flip_bit (i : nat) (d : bytes) : bytes :=
  match d with
  | [] => []
  | b :: rest =>
      if (i <? 8)%nat then flip_bit_of_byte i b :: rest
      else b :: flip_bit (i - 8) rest
  end.

Definition flip_changes_byte (b : byte) : bool :=
  forallb (fun k => negb (Byte.eqb (flip_bit_of_byte k b) b)) (seq 0 8).

Lemma flip_bit_of_byte_neq (k : nat) (b : byte) :
  (k < 8)%nat -> flip_bit_of_byte k b <> b.
Proof.
  intros Hk E.
  assert (H : flip_changes_byte b = true).
  { clear. revert b. apply forall_byte. vm_compute. reflexivity. }
  unfold flip_changes_byte in H. rewrite forallb_forall in H.
  specialize (H k ltac:(apply in_seq; lia)).
  rewrite E, Byte.byte_dec_lb in H by reflexivity. discriminate.
Qed.

Lemma flip_bit_length (i : nat) (d : bytes) : length (flip_bit i d) = length d.
Proof.
  revert i. induction d as [|b d IH]; intros i; [reflexivity|].
  cbn [flip_bit]. destruct (i <? 8)%nat; cbn [length]; rewrite ?IH; reflexivity.
Qed.

Lemma flip_bit_neq (i : nat) (d : bytes) :
  (i < 8 * length d)%nat -> flip_bit i d <> d.
Proof.
  revert i. induction d as [|b d IH]; intros i Hi; [simpl in Hi; lia|].
  cbn [flip_bit]. destruct (i <? 8)%nat eqn:E.
  - apply Nat.ltb_lt in E. intros H. injection H as H.
    exact (flip_bit_of_byte_neq i b E H).
  - apply Nat.ltb_ge in E. intros H. injection H as H.
    apply (IH (i - 8)%nat); [cbn [length] in Hi; lia|exact H].
Qed.

Lemma flip_bit_app_l (i : nat) (l1 l2 : bytes) :
  (i < 8 * length l1)%nat -> flip_bit i (l1 ++ l2) = flip_bit i l1 ++ l2.
Proof.
  revert i. induction l1 as [|b l1 IH]; intros i Hi; [simpl in Hi; lia|].
  cbn [flip_bit app]. destruct (i <? 8)%nat eqn:E; [reflexivity|].
  apply Nat.ltb_ge in E. rewrite IH by (cbn [length] in Hi; lia). reflexivity.
Qed.

Lemma flip_bit_app_r (j : nat) (l1 l2 : bytes) :
  flip_bit (8 * length l1 + j) (l1 ++ l2) = l1 ++ flip_bit j l2.
Proof.
  induction l1 as [|b l1 IH]; [reflexivity|].
  cbn [flip_bit app length].
  destruct (8 * S (length l1) + j <? 8)%nat eqn:E; [apply Nat.ltb_lt in E; lia|].
  replace (8 * S (length l1) + j - 8)%nat with (8 * length l1 + j)%nat by lia.
  rewrite IH. reflexivity.
Qed.

Lemma app_inj_length {A} (l1 l2 t1 t2 : list A) :
  length l1 = length l2 -> l1 ++ t1 = l2 ++ t2 -> l1 = l2 /\ t1 = t2.
Proof.
  revert l2. induction l1 as [|a l1 IH]; intros [|b l2] Hl H;
    try discriminate; [split; [reflexivity|exact H]|].
  cbn [app] in H. injection H as -> H. injection Hl as Hl.
  destruct (IH l2 Hl H) as [-> ->]. split; reflexivity.
Qed.

Lemma pkcs5_unpad_no_signature_error (d : bytes) :
  pkcs5_unpad d <> Raise InvalidSignature.
Proof.
  unfold pkcs5_unpad, getitem.
  destruct ((_ <? 0) || (_ <=? _)); cbn [bindR]; discriminate.
Qed.

Section Tampering.

Context {backend : CryptoBackend}.

Variable key : AESKey.
Hypothesis key_ok : aes_key_ok (aes_key_bytes key) = true.

(** Decryption of a text that decodes to [msg ++ sig], with [sig] of 20
    bytes and [msg] of at least 21: it raises [InvalidSignature] exactly
    when [sig] is not the HMAC of [msg]. *)
Lemma decrypt_signature_error_iff (msg sig : bytes) (w : World) :
  21 <= len msg -> len sig = 20 ->
  fst (cryptography_symmetric_decrypt key (upper (hexlify (msg ++ sig))) w)
    = Raise InvalidSignature
  <-> hmac_sha1 (hmac_key_bytes key) msg <> sig.
Proof.
  intros Hm Hs.
  assert (Hne : sig <> []) by (intros ->; discriminate).
  assert (Hlen : 41 <= len (msg ++ sig)) by (rewrite len_app; lia).
  pose proof (unhexlify_hexlify (msg ++ sig)) as Hc.
  split.
  - intros Hr Heq.
    destruct (split_envelope _ Hlen) as (hdr & iv & ct & sig' & E & Hh & Hi & Hs').
    assert (E' : (hdr ++ iv ++ ct) ++ sig' = msg ++ sig).
    { rewrite <- !app_assoc. symmetry. exact E. }
    assert (Hl : length (hdr ++ iv ++ ct) = length msg).
    { pose proof (f_equal (@length byte) E') as L. rewrite !length_app in L.
      rewrite !length_app. unfold len in Hs, Hs'. lia. }
    destruct (app_inj_length _ _ _ _ Hl E') as [Emsg Esig]. subst sig'.
    rewrite E in Hc, Hr.
    rewrite (decrypt_parts key _ _ _ _ _ w Hc Hh Hi Hs) in Hr.
    rewrite Emsg in Hr.
    rewrite (bind_ok _ _ _ _ _ (HMAC_verify_ok _ _ _ _ Heq)) in Hr.
    rewrite (bind_ok _ _ _ _ _ (Cipher_eq _ _ _ key_ok Hi)) in Hr.
    unfold decryptor_update_finalize, bind, log, raise, ret, lift in Hr.
    destruct (negb (len ct mod 16 =? 0)); cbn in Hr; [discriminate|].
    destruct (pkcs5_unpad _) eqn:Eu; cbn in Hr; [discriminate|].
    injection Hr as Hr. rewrite Hr in Eu.
    exact (pkcs5_unpad_no_signature_error _ Eu).
  - intros Hneq.
    rewrite (decrypt_bad_signature key _ (msg ++ sig) w Hc Hlen); [reflexivity|].
    unfold KEYCZAR_HLEN. rewrite <- Hs.
    rewrite slice_suffix, slice_prefix by exact Hne. congruence.
Qed.

(** X14. Inverting any one bit of the signature of an envelope that
    encryption produced is detected: decryption of the altered envelope
    raises [InvalidSignature], whatever the backend's digest is. *)
Lemma decrypt_rejects_flipped_signature (P : bytes) (w w1 : World) (j : nat) :
  (j < 160)%nat ->
  fst (cryptography_symmetric_decrypt key
         (upper (hexlify (envelope_message key P w
                            ++ flip_bit j (envelope_signature key P w)))) w1)
    = Raise InvalidSignature.
Proof.
  intros Hj.
  pose proof (hmac_sha1_length (hmac_key_bytes key) (envelope_message key P w))
    as Hs. fold (envelope_signature key P w) in Hs. unfold KEYCZAR_HLEN in Hs.
  apply decrypt_signature_error_iff.
  - unfold envelope_message. rewrite !len_app, len_envelope_iv.
    change (len (bs "00000")) with 5.
    pose proof (len_nonneg (envelope_ciphertext key P w)). lia.
  - unfold len in *. rewrite flip_bit_length. exact Hs.
  - fold (envelope_signature key P w). intros E. symmetry in E.
    apply flip_bit_neq in E; [exact E|]. unfold len in Hs. lia.
Qed.

(** Inverting a bit of header, IV or ciphertext is detected exactly when
    the HMAC of the altered message differs from the signature. *)
Lemma decrypt_flipped_message_iff (P : bytes) (w w1 : World) (i : nat) :
  fst (cryptography_symmetric_decrypt key
         (upper (hexlify (flip_bit i (envelope_message key P w)
                            ++ envelope_signature key P w))) w1)
    = Raise InvalidSignature
  <-> hmac_sha1 (hmac_key_bytes key) (flip_bit i (envelope_message key P w))
      <> hmac_sha1 (hmac_key_bytes key) (envelope_message key P w).
Proof.
  apply decrypt_signature_error_iff.
  - unfold len. rewrite flip_bit_length. fold (len (envelope_message key P w)).
    unfold envelope_message. rewrite !len_app, len_envelope_iv.
    change (len (bs "00000")) with 5.
    pose proof (len_nonneg (envelope_ciphertext key P w)). lia.
  - apply hmac_sha1_length.
Qed.

End Tampering.

(** * Further properties of the codecs *)

Definition is_urlsafe_char (c : byte) : bool :=
  existsb (Byte.eqb c)
    (bs "ABCDEFGHIJKLMNOPQRSTUVWXYZabcdefghijklmnopqrstuvwxyz0123456789-_").

Lemma enc_char_urlsafe0 (a : byte) : is_urlsafe_char (enc_char (sextet0 a)) = true.
Proof. revert a. apply forall_byte. vm_compute. reflexivity. Qed.

Lemma enc_char_urlsafe1 (a b : byte) :
  is_urlsafe_char (enc_char (sextet1 a b)) = true.
Proof. revert a b. apply forall_byte2. vm_compute. reflexivity. Qed.

Lemma enc_char_urlsafe2 (b c : byte) :
  is_urlsafe_char (enc_char (sextet2 b c)) = true.
Proof. revert b c. apply forall_byte2. vm_compute. reflexivity. Qed.

Lemma enc_char_urlsafe3 (c : byte) : is_urlsafe_char (enc_char (sextet3 c)) = true.
Proof. revert c. apply forall_byte. vm_compute. reflexivity. Qed.

Lemma enc_char_urlsafe1_last (a : byte) :
  is_urlsafe_char (enc_char (sextet1_last a)) = true.
Proof. revert a. apply forall_byte. vm_compute. reflexivity. Qed.

Lemma enc_char_urlsafe2_last (b : byte) :
  is_urlsafe_char (enc_char (sextet2_last b)) = true.
Proof. revert b. apply forall_byte. vm_compute. reflexivity. Qed.

(** X1. What [Base64WSEncode] writes for a byte string of [n] bytes is
    made of letters, digits, "-" and "_" only (no pad character, no "+",
    no "/"), is [ceil(4n/3)] characters long, and [Base64WSDecode] reads the
    byte string back from it. *)
Theorem Base64WSEncode_text (s : bytes) :
  forallb is_urlsafe_char (Base64WSEncode s) = true /\
  len (Base64WSEncode s) = (4 * len s + 2) / 3 /\
  Base64WSDecode (Base64WSEncode s) = Ok s.
Proof.
  split; [|split; [|apply Base64WSDecode_Encode]].
  - induction s as [|a|a b|a b c rest IH] using bytes_ind3;
      rewrite Base64WSEncode_eq; cbn [forallb];
      rewrite ?IH, ?enc_char_urlsafe0, ?enc_char_urlsafe1, ?enc_char_urlsafe2,
        ?enc_char_urlsafe3, ?enc_char_urlsafe1_last, ?enc_char_urlsafe2_last;
      reflexivity.
  - induction s as [|a|a b|a b c rest IH] using bytes_ind3;
      rewrite Base64WSEncode_eq; try reflexivity.
    rewrite !len_cons, IH.
    replace (4 * (1 + (1 + (1 + len rest))) + 2)
      with (4 * len rest + 2 + 4 * 3) by lia.
    rewrite Z.div_add by lia. lia.
Qed.

(** The characters [Base64WSDecode] removes before anything else. *)
Definition base64_strip (s : bytes) : bytes :=
  filter (fun c => negb (Byte.eqb c x20))
    (filter (fun c => negb (Byte.eqb c x0a) && negb (Byte.eqb c x0d)) s).

Lemma Base64WSDecode_strip (s t : bytes) :
  base64_strip s = base64_strip t -> Base64WSDecode s = Base64WSDecode t.
Proof.
  intros H. unfold Base64WSDecode, splitlines, remove_char.
  rewrite !join_splitlines_from. cbn [app].
  unfold base64_strip in H. rewrite H. reflexivity.
Qed.

(** X2. [Base64WSDecode] ignores blanks and line ends wherever they
    stand: inserting a space, a line feed or a carriage return at any
    place of a text changes neither the decoded bytes nor the error. *)
Theorem Base64WSDecode_ignores_blanks (l1 l2 : bytes) (ws : byte) :
  ws = x20 \/ ws = x0a \/ ws = x0d ->
  Base64WSDecode (l1 ++ ws :: l2) = Base64WSDecode (l1 ++ l2).
Proof.
  intros H. apply Base64WSDecode_strip. unfold base64_strip.
  rewrite !filter_app. cbn [filter].
  destruct H as [->|[->| ->]]; reflexivity.
Qed.

Lemma Base64WSDecode_ignores_blanks_witness :
  (x0a = x20 \/ x0a = x0a \/ x0a = x0d) /\
  Base64WSDecode (bs "YW" ++ x0a :: bs "Jj") = Base64WSDecode (bs "YW" ++ bs "Jj") /\
  Base64WSDecode (bs "YW" ++ bs "Jj") = Ok (bs "abc").
Proof.
  assert (H : x0a = x20 \/ x0a = x0a \/ x0a = x0d) by (right; left; reflexivity).
  split; [exact H|].
  split; [apply (Base64WSDecode_ignores_blanks (bs "YW") (bs "Jj") x0a H)|reflexivity].
Defined.

(** X3. Whatever the text, a failure of [Base64WSDecode] is a
    [ValueError]: the [TypeError] of the decoder never leaves it. *)
Theorem Base64WSDecode_raises_ValueError (s : bytes) (e : exn) :
  Base64WSDecode s = Raise e -> exists msg, e = ValueError msg.
Proof.
  unfold Base64WSDecode.
  destruct (_ mod 4 =? 1).
  { intros H. injection H as <-. eexists. reflexivity. }
  unfold urlsafe_b64decode, a2b_base64.
  destruct (a2b_base64_loop _ 0 0 0) as [out leftbits].
  destruct (negb (leftbits =? 0)); intros H; [|discriminate].
  injection H as <-. eexists. reflexivity.
Qed.

Lemma Base64WSDecode_raises_ValueError_witness :
  Base64WSDecode (bs "YWJ!") = Raise (ValueError "Base64 decoding error: Incorrect padding") /\
  exists msg, ValueError "Base64 decoding error: Incorrect padding" = ValueError msg.
Proof.
  assert (H : Base64WSDecode (bs "YWJ!")
              = Raise (ValueError "Base64 decoding error: Incorrect padding"))
    by reflexivity.
  split; [exact H|].
  exact (Base64WSDecode_raises_ValueError (bs "YWJ!") _ H).
Defined.

(** X4. On data that is not empty [pkcs5_unpad] never fails, and what it
    returns is a beginning of the data that leaves at least one byte out:
    whatever the last byte says, some of the data is taken for padding. *)
Theorem pkcs5_unpad_strict_prefix (data : bytes) :
  data <> [] ->
  exists r suffix,
    pkcs5_unpad data = Ok r /\ data = r ++ suffix /\ suffix <> [].
Proof.
  intros Hne.
  destruct (exists_last Hne) as (body & c & ->).
  unfold pkcs5_unpad. rewrite getitem_last. cbn [bindR].
  unfold slice. cbn [skipn Z.to_nat].
  set (k := Z.to_nat (slice_bound (len (body ++ [c])) (- ord c) - 0)).
  exists (firstn k (body ++ [c])), (skipn k (body ++ [c])).
  split; [reflexivity|]. split; [symmetry; apply firstn_skipn|].
  assert (Hk : (k < length (body ++ [c]))%nat).
  { subst k. unfold slice_bound.
    pose proof (ord_range c) as Hc.
    assert (Hl : 0 < len (body ++ [c])).
    { rewrite len_app. pose proof (len_nonneg body). change (len [c]) with 1. lia. }
    unfold len in *.
    destruct (- ord c <? 0) eqn:E.
    - apply Z.ltb_lt in E. lia.
    - apply Z.ltb_ge in E. lia. }
  intros H. apply (f_equal (@length byte)) in H.
  rewrite length_skipn in H. simpl in H. lia.
Qed.

Lemma pkcs5_unpad_strict_prefix_witness :
  bs "ab" ++ [x00] <> [] /\
  exists r suffix,
    pkcs5_unpad (bs "ab" ++ [x00]) = Ok r /\
    bs "ab" ++ [x00] = r ++ suffix /\ suffix <> [].
Proof.
  assert (H : bs "ab" ++ [x00] <> []) by discriminate.
  split; [exact H|]. exact (pkcs5_unpad_strict_prefix _ H).
Defined.

(** X5. [pkcs5_unpad] trusts the last byte alone: when it announces [n]
    bytes of padding, the [n - 1] bytes before it are removed whatever
    their values are. *)
Theorem pkcs5_unpad_unchecked_padding (data junk : bytes) (c : byte) :
  ord c = len junk + 1 ->
  pkcs5_unpad (data ++ junk ++ [c]) = Ok data.
Proof.
  intros H. apply pkcs5_unpad_app. rewrite len_app, H. reflexivity.
Qed.

Lemma pkcs5_unpad_unchecked_padding_witness :
  ord x04 = len (bs "xyz") + 1 /\
  pkcs5_unpad (bs "secret" ++ bs "xyz" ++ [x04]) = Ok (bs "secret").
Proof.
  assert (H : ord x04 = len (bs "xyz") + 1) by reflexivity.
  split; [exact H|].
  exact (pkcs5_unpad_unchecked_padding (bs "secret") (bs "xyz") x04 H).
Defined.

(** * Further properties of decryption *)

Definition to_int_same_upper (c : byte) : bool :=
  match to_int (upper_byte c), to_int c with
  | Some x, Some y => x =? y
  | None, None => true
  | _, _ => false
  end.

Lemma to_int_upper_byte (c : byte) : to_int (upper_byte c) = to_int c.
Proof.
  assert (H : to_int_same_upper c = true).
  { revert c. apply forall_byte. vm_compute. reflexivity. }
  unfold to_int_same_upper in H.
  destruct (to_int (upper_byte c)), (to_int c); try discriminate; [|reflexivity].
  apply Z.eqb_eq in H. congruence.
Qed.

Lemma unhexlify_upper (c : bytes) : unhexlify (upper c) = unhexlify c.
Proof.
  unfold unhexlify. unfold upper at 1. rewrite len_map.
  destruct (len c mod 2 =? 1); [reflexivity|].
  assert (H : forall n c, (length c <= n)%nat ->
              unhexlify_pairs (upper c) = unhexlify_pairs c).
  { clear. induction n as [|n IH]; intros c Hn.
    - destruct c; [reflexivity|simpl in Hn; lia].
    - destruct c as [|hi [|lo rest]]; [reflexivity..|].
      cbn [upper map unhexlify_pairs]. fold (upper rest).
      rewrite !to_int_upper_byte, IH by (simpl in Hn; lia). reflexivity. }
  apply (H (length c)). lia.
Qed.

(** X6. The case of the hexadecimal digits does not matter to
    decryption: a text and its upper-case form give the same result, the
    same error and the same backend calls. *)
Theorem decrypt_hex_case_insensitive {backend : CryptoBackend}
    (key : AESKey) (c : bytes) (w : World) :
  cryptography_symmetric_decrypt key (upper c) w =
  cryptography_symmetric_decrypt key c w.
Proof.
  unfold cryptography_symmetric_decrypt. rewrite unhexlify_upper. reflexivity.
Qed.

Definition is_hex_digit (c : byte) : bool :=
  match to_int c with Some _ => true | None => false end.

Lemma unhexlify_pairs_bad_digit (c : bytes) :
  len c mod 2 = 0 -> forallb is_hex_digit c = false ->
  unhexlify_pairs c = Raise (TypeError "Non-hexadecimal digit found").
Proof.
  assert (H : forall n c, (length c <= n)%nat -> len c mod 2 = 0 ->
              forallb is_hex_digit c = false ->
              unhexlify_pairs c = Raise (TypeError "Non-hexadecimal digit found")).
  { clear. induction n as [|n IH]; intros c Hn Hev Hbad.
    - destruct c; [discriminate|simpl in Hn; lia].
    - destruct c as [|hi [|lo rest]]; [discriminate|discriminate|].
      cbn [unhexlify_pairs]. cbn [forallb] in Hbad. unfold is_hex_digit in Hbad at 1 2.
      destruct (to_int hi); [|reflexivity].
      destruct (to_int lo); [|reflexivity].
      cbn [andb] in Hbad.
      rewrite IH; [reflexivity|simpl in Hn; lia| |exact Hbad].
      rewrite !len_cons in Hev.
      replace (1 + (1 + len rest)) with (len rest + 1 * 2) in Hev by lia.
      rewrite Z.mod_add in Hev by lia. exact Hev. }
  intros Hev Hbad. apply (H (length c)); [lia|assumption..].
Qed.

(** X7. A text that is not an even number of hexadecimal digits is
    refused by decryption with a [TypeError], before any call to the
    backend: the world is left as it was. *)
Theorem decrypt_rejects_malformed_hex {backend : CryptoBackend}
    (key : AESKey) (c : bytes) (w : World) :
  len c mod 2 = 1 \/ forallb is_hex_digit c = false ->
  exists msg,
    cryptography_symmetric_decrypt key c w = (Raise (TypeError msg), w).
Proof.
  intros H. unfold cryptography_symmetric_decrypt, unhexlify.
  destruct (len c mod 2 =? 1) eqn:E.
  - eexists. reflexivity.
  - destruct H as [H|H]; [rewrite H in E; discriminate|].
    rewrite unhexlify_pairs_bad_digit; [eexists; reflexivity| |exact H].
    apply Z.eqb_neq in E.
    pose proof (Z.mod_pos_bound (len c) 2 ltac:(lia)). lia.
Qed.

Lemma decrypt_rejects_malformed_hex_witness :
  (len (bs "30ZZ") mod 2 = 1 \/ forallb is_hex_digit (bs "30ZZ") = false) /\
  exists msg,
    cryptography_symmetric_decrypt sample_key (bs "30ZZ") sample_world
      = (Raise (TypeError msg), sample_world).
Proof.
  assert (H : len (bs "30ZZ") mod 2 = 1 \/ forallb is_hex_digit (bs "30ZZ") = false)
    by (right; reflexivity).
  split; [exact H|].
  exact (decrypt_rejects_malformed_hex sample_key (bs "30ZZ") sample_world H).
Defined.

(** X8. An envelope without ciphertext: a text that decodes to a 5-byte
    header, a 16-byte IV and the correct HMAC of the two passes the
    signature check, is deciphered to the empty string and then fails in
    unpadding, with [IndexError]. *)
Theorem decrypt_empty_ciphertext {backend : CryptoBackend}
    (key : AESKey) (c hdr iv : bytes) (w : World) :
  aes_key_ok (aes_key_bytes key) = true ->
  len hdr = 5 -> len iv = 16 ->
  unhexlify c = Ok (hdr ++ iv ++ hmac_sha1 (hmac_key_bytes key) (hdr ++ iv)) ->
  cryptography_symmetric_decrypt key c w =
  (Raise (IndexError "string index out of range"),
   push (EvAesCbcDecrypt (aes_key_bytes key) iv [])
     (push (EvHmacSha1 (hmac_key_bytes key) (hdr ++ iv)) w)).
Proof.
  intros Hkey Hh Hi Hc.
  assert (Hc' : unhexlify c =
                Ok (hdr ++ iv ++ [] ++ hmac_sha1 (hmac_key_bytes key) (hdr ++ iv)))
    by exact Hc.
  rewrite (decrypt_parts key c hdr iv [] _ w Hc' Hh Hi (hmac_sha1_length _ _)).
  rewrite app_nil_r.
  rewrite (bind_ok _ _ _ _ _ (HMAC_verify_ok _ _ _ _ eq_refl)).
  rewrite (bind_ok _ _ _ _ _ (Cipher_eq _ _ _ Hkey Hi)).
  rewrite (bind_ok _ _ _ _ _ (decryptor_eq _ [] _ eq_refl)).
  reflexivity.
Qed.

Lemma decrypt_empty_ciphertext_witness :
  let hdr := bs "00000" in
  let iv := bs "0123456789abcdef" in
  let c := upper (hexlify (hdr ++ iv ++ hmac_sha1 (hmac_key_bytes sample_key)
                                         (hdr ++ iv))) in
  aes_key_ok (aes_key_bytes sample_key) = true /\
  len hdr = 5 /\ len iv = 16 /\
  fst (cryptography_symmetric_decrypt sample_key c sample_world) =
    Raise (IndexError "string index out of range").
Proof.
  intros hdr iv c.
  split; [reflexivity|]. split; [reflexivity|]. split; [reflexivity|].
  rewrite (decrypt_empty_ciphertext sample_key c hdr iv sample_world);
    [reflexivity|reflexivity|reflexivity|reflexivity|].
  apply unhexlify_hexlify.
Defined.

(** * Further properties of encryption *)

Lemma len_envelope_padded_eq (P : bytes) :
  len (envelope_padded P) = 16 * (len P / 16 + 1).
Proof.
  unfold envelope_padded.
  pose proof (pad_length_range P) as Hn. unfold KEYCZAR_AES_BLOCK_SIZE in Hn.
  rewrite len_app, str_mul_single_length by lia.
  pose proof (Z.div_mod (len P) 16 ltac:(lia)). lia.
Qed.

(** X9. The size of what encryption returns depends on the length of
    the plaintext alone: [2 * (5 + 16 + 16 * (len(P) / 16 + 1) + 20)]
    characters, two for every byte of header, IV, padded ciphertext and
    signature. *)
Theorem encrypt_output_length {backend : CryptoBackend}
    (key : AESKey) (P : bytes) (w : World) :
  aes_key_ok (aes_key_bytes key) = true ->
  exists c w1,
    cryptography_symmetric_encrypt key P w = (Ok c, w1) /\
    len c = 2 * (5 + 16 + 16 * (len P / 16 + 1) + 20).
Proof.
  intros Hkey. eexists _, _. split; [apply (encrypt_eq key P w Hkey)|].
  unfold upper. rewrite len_map, len_hexlify.
  unfold envelope_message. rewrite !len_app, len_envelope_iv.
  rewrite (len_envelope_ciphertext key P w Hkey), len_envelope_padded_eq.
  pose proof (hmac_sha1_length (hmac_key_bytes key) (envelope_message key P w)) as Hs.
  fold (envelope_signature key P w) in Hs. unfold KEYCZAR_HLEN in Hs.
  rewrite Hs. change (len (bs "00000")) with 5. lia.
Qed.

Lemma encrypt_output_length_witness :
  aes_key_ok (aes_key_bytes sample_key) = true /\
  exists c w1,
    cryptography_symmetric_encrypt sample_key (bs "secret") sample_world
      = (Ok c, w1) /\
    len c = 114.
Proof.
  split; [reflexivity|].
  exact (encrypt_output_length sample_key (bs "secret") sample_world eq_refl).
Defined.

Lemma slice_between {A} (l1 l2 l3 : list A) :
  slice (l1 ++ l2 ++ l3) (Some (len l1)) (Some (len l1 + len l2)) = l2.
Proof.
  unfold slice, slice_bound. rewrite !len_app.
  pose proof (len_nonneg l1). pose proof (len_nonneg l2). pose proof (len_nonneg l3).
  destruct (len l1 <? 0) eqn:E1; [apply Z.ltb_lt in E1; lia|].
  destruct (len l1 + len l2 <? 0) eqn:E2; [apply Z.ltb_lt in E2; lia|].
  rewrite !Z.min_l by lia.
  replace (Z.to_nat (len l1)) with (length l1) by (unfold len; lia).
  rewrite skipn_app, skipn_all, Nat.sub_diag. cbn [skipn app].
  replace (Z.to_nat (len l1 + len l2 - len l1)) with (length l2 + 0)%nat
    by (unfold len in *; lia).
  rewrite firstn_app_2. cbn [firstn]. apply app_nil_r.
Qed.

(** X10. Every encryption takes the next 16 bytes of the entropy pool
    as its IV and nothing more: of two encryptions in a row the first
    carries bytes 0 to 15 of the pool at positions 5 to 20 of its envelope,
    the second bytes 16 to 31, and the pool is then 32 bytes further. *)
Theorem encrypt_consumes_one_iv {backend : CryptoBackend}
    (key : AESKey) (P1 P2 : bytes) (w : World) :
  aes_key_ok (aes_key_bytes key) = true ->
  exists c1 w1 c2 w2 d1 d2,
    cryptography_symmetric_encrypt key P1 w = (Ok c1, w1) /\
    cryptography_symmetric_encrypt key P2 w1 = (Ok c2, w2) /\
    unhexlify c1 = Ok d1 /\ unhexlify c2 = Ok d2 /\
    slice d1 (Some 5) (Some 21) = map (entropy w) (seq 0 16) /\
    slice d2 (Some 5) (Some 21) = map (entropy w) (seq 16 16) /\
    (forall i, entropy w2 i = entropy w (32 + i)%nat).
Proof.
  intros Hkey.
  eexists _, _, _, _, _, _.
  split; [apply (encrypt_eq key P1 w Hkey)|].
  split; [apply (encrypt_eq key P2 _ Hkey)|].
  split; [apply unhexlify_hexlify|]. split; [apply unhexlify_hexlify|].
  assert (Hs : forall P w0,
            slice (envelope_message key P w0 ++ envelope_signature key P w0)
                  (Some 5) (Some 21) = envelope_iv w0).
  { intros P w0. unfold envelope_message. rewrite <- !app_assoc.
    change 5 with (len (bs "00000")) at 1.
    replace 21 with (len (bs "00000") + len (envelope_iv w0))
      by (rewrite len_envelope_iv; reflexivity).
    apply slice_between. }
  split; [apply Hs|]. split.
  - rewrite Hs. unfold envelope_iv, world_after_encrypt. cbn [entropy push drain].
    apply (map_entropy_shift (entropy w) 16 16 0).
  - intros i. reflexivity.
Qed.

Lemma encrypt_consumes_one_iv_witness :
  aes_key_ok (aes_key_bytes sample_key) = true /\
  exists c1 w1 c2 w2 d1 d2,
    cryptography_symmetric_encrypt sample_key (bs "one") sample_world = (Ok c1, w1) /\
    cryptography_symmetric_encrypt sample_key (bs "two") w1 = (Ok c2, w2) /\
    unhexlify c1 = Ok d1 /\ unhexlify c2 = Ok d2 /\
    slice d1 (Some 5) (Some 21) = map (entropy sample_world) (seq 0 16) /\
    slice d2 (Some 5) (Some 21) = map (entropy sample_world) (seq 16 16) /\
    (forall i, entropy w2 i = entropy sample_world (32 + i)%nat).
Proof.
  split; [reflexivity|].
  exact (encrypt_consumes_one_iv sample_key (bs "one") (bs "two") sample_world
           eq_refl).
Defined.

(** X11. Encryption and decryption read the byte material of a key and
    nothing else: two keys with the same AES and HMAC bytes, whatever
    their mode, size and key strings, behave alike on every input. *)
Theorem crypto_reads_key_bytes_only {backend : CryptoBackend}
    (k1 k2 : AESKey) :
  aes_key_bytes k1 = aes_key_bytes k2 ->
  hmac_key_bytes k1 = hmac_key_bytes k2 ->
  forall (text : bytes) (w : World),
    symmetric_encrypt k1 text w = symmetric_encrypt k2 text w /\
    symmetric_decrypt k1 text w = symmetric_decrypt k2 text w.
Proof.
  intros Ha Hh text w.
  unfold symmetric_encrypt, symmetric_decrypt,
    cryptography_symmetric_encrypt, cryptography_symmetric_decrypt.
  rewrite Ha, Hh. split; reflexivity.
Qed.

Lemma crypto_reads_key_bytes_only_witness :
  let ecb_key := mkAESKey [] [] PyNone (bs "ECB") 7
                   (hmac_key_bytes sample_key) (aes_key_bytes sample_key) in
  aes_key_bytes ecb_key = aes_key_bytes sample_key /\
  hmac_key_bytes ecb_key = hmac_key_bytes sample_key /\
  symmetric_encrypt ecb_key (bs "secret") sample_world
    = symmetric_encrypt sample_key (bs "secret") sample_world.
Proof.
  intros ecb_key. split; [reflexivity|]. split; [reflexivity|].
  exact (proj1 (crypto_reads_key_bytes_only ecb_key sample_key eq_refl eq_refl
                  (bs "secret") sample_world)).
Defined.

Lemma decrypt_rejects_flipped_signature_witness :
  aes_key_ok (aes_key_bytes sample_key) = true /\ (7 < 160)%nat /\
  fst (cryptography_symmetric_decrypt sample_key
         (upper (hexlify
            (envelope_message sample_key (bs "secret") sample_world
               ++ flip_bit 7 (envelope_signature sample_key (bs "secret")
                                sample_world)))) sample_world)
    = Raise InvalidSignature.
Proof.
  split; [reflexivity|]. split; [lia|].
  apply (decrypt_rejects_flipped_signature sample_key eq_refl (bs "secret")
           sample_world sample_world 7).
  lia.
Defined.

(** * Further properties of the key model *)






(** * The rule enforcer

    [st2reactor/rules/enforcer.py]: the control flow of [RuleEnforcer],
    over the services it calls. The database models are records of the
    attributes the code reads; the services of [st2common] are the fields
    of [Services], each free to change the database and to raise. Logging
    and the construction of model objects are taken not to raise. *)

Module Enforcer.

(** An exception: its class, as far as the [except] clauses of the file
    tell classes apart, and its [message]. [NotAnException] stands for the
    classes outside [Exception], such as [KeyboardInterrupt]. *)
Inductive exc_class : Type :=
| ValueError_
| AttributeError_
| AssertionError_
| ParamException_
| OtherException (name : string)
| NotAnException (name : string).

Record exc : Type := mkExc { class_of : exc_class; message : string }.

Definition is_Exception (e : exc) : bool :=
  match class_of e with NotAnException _ => false | _ => true end.

Definition is_ParamException (e : exc) : bool :=
  match class_of e with ParamException_ => true | _ => false end.

Inductive Res (A : Type) : Type :=
| Ret (a : A)
| Exc (e : exc).

Arguments Ret {A} a.
Arguments Exc {A} e.

(** ** Database models *)

Record TriggerInstanceDB : Type := {
  ti_id : string;
  ti_payload : pyval
}.

Record ActionExecutionSpecDB : Type := {
  spec_ref : string;
  spec_parameters : pyval
}.

Record RuleDB : Type := {
  rule_ref : string;
  rule_id : string;
  rule_uid : string;
  rule_action : ActionExecutionSpecDB
}.

Record ActionDB : Type := {
  action_ref : string;
  action_pack : string;
  action_runner_type_name : string;
  action_parameters : pyval
}.

Record RunnerTypeDB : Type := { runner_parameters : pyval }.

Record TraceDB : Type := { trace_id : string; trace_tag : string }.

Record ExecutionDB : Type := { exec_id : string; exec_status : string }.

Record RuleEnforcementDB : Type := mkEnforcement {
  enf_trigger_instance_id : string;
  enf_rule : string * string * string;       (* ref, id, uid *)
  enf_execution_id : option string;
  enf_failure_reason : option string
}.

Record Context : Type := mkContext {
  ctx_trigger_instance : pyval;
  ctx_rule : pyval;
  ctx_user : string;
  ctx_pack : string;
  ctx_trace_context : option (string * string)   (* id_, trace_tag *)
}.

Record LiveActionDB : Type := mkLiveAction {
  la_action : string;
  la_context : Context;
  la_parameters : pyval
}.

(** ** Services *)

Class Services : Type := {
  Db : Type;
  Transformer : Type;
  TraceComponent : Type;
  get_transformer : pyval -> Db -> Res Transformer * Db;
  apply_transformer : Transformer -> pyval -> Db -> Res pyval * Db;
  get_action_by_ref : string -> Db -> Res (option ActionDB) * Db;
  get_runnertype_by_name : string -> Db -> Res RunnerTypeDB * Db;
  get_trace_db_by_trigger_instance :
    TriggerInstanceDB -> Db -> Res (option TraceDB) * Db;
  get_trace_component_for_rule :
    RuleDB -> TriggerInstanceDB -> Db -> Res TraceComponent * Db;
  add_or_update_given_trace_db :
    TraceDB -> list TraceComponent -> Db -> Res TraceDB * Db;
  RuleEnforcement_add_or_update : RuleEnforcementDB -> Db -> Res unit * Db;
  render_live_params :
    pyval -> pyval -> pyval -> Context -> Db -> Res pyval * Db;
  action_service_request :
    LiveActionDB -> Db -> Res (LiveActionDB * option ExecutionDB) * Db;
  get_ref_from_trigger_instance : TriggerInstanceDB -> Db -> Res pyval * Db;
  get_ref_from_rule : RuleDB -> Db -> Res pyval * Db;
  get_system_username : Db -> Res string * Db;
  dumps : pyval -> Db -> Res string * Db;
  EXEC_KICKED_OFF_STATES : list string
}.

(** The calls to services, most recent first, and the log. *)
Inductive Call : Type :=
| CallGetTransformer (payload : pyval)
| CallApplyTransformer (parameters : pyval)
| CallGetActionByRef (ref : string)
| CallGetRunnertypeByName (name : string)
| CallGetTraceDb (trigger_instance : TriggerInstanceDB)
| CallGetTraceComponent
| CallUpdateTrace (trace : TraceDB)
| CallAddOrUpdateEnforcement (enforcement : RuleEnforcementDB)
| CallRenderLiveParams (parameters : pyval)
| CallRequest (liveaction : LiveActionDB)
| CallGetRef
| CallGetSystemUsername
| CallJsonDumps (value : pyval).

Inductive LogRecord : Type :=
| LogException (text : string)
| LogAuditEnforced
| LogAuditFailed
| LogInfo
| LogDebug.

Section WithServices.

Context {services : Services}.

Record St : Type := mkSt {
  db : Db;
  calls : list Call;
  logs : list LogRecord
}.

Definition E (A : Type) : Type := St -> Res A * St.

Definition ret {A} (a : A) : E A := fun st => (Ret a, st).

Definition raise {A} (e : exc) : E A := fun st => (Exc e, st).

Definition bind {A B} (m : E A) (k : A -> E B) : E B :=
  fun st =>
    match m st with
    | (Ret a, st') => k a st'
    | (Exc e, st') => (Exc e, st')
    end.

(** The outcome of [m] as a value: what a [try] statement looks at. *)
Definition attempt {A} (m : E A) : E (Res A) :=
  fun st => let '(r, st') := m st in (Ret r, st').

(** A call to a service. *)
Definition call {A} (c : Call) (op : Db -> Res A * Db) : E A :=
  fun st =>
    let '(r, d) := op (db st) in
    (r, mkSt d (c :: calls st) (logs st)).

Definition LOG (r : LogRecord) : E unit :=
  fun st => (Ret tt, mkSt (db st) (calls st) (r :: logs st)).

End WithServices.

Notation "x <<- e ;; k" := (bind e (fun x => k))
  (at level 61, e at next level, right associativity).

Notation "e >>; k" := (bind e (fun _ => k))
  (at level 61, right associativity).

Definition dquote : string := String (Ascii.ascii_of_nat 34) EmptyString.

Section RuleEnforcer.

Context {services : Services}.

Record RuleEnforcer : Type := mkRuleEnforcer {
  trigger_instance : TriggerInstanceDB;
  rule : RuleDB;
  data_transformer : Transformer
}.

(** [RuleEnforcer.__init__] *)
Definition RuleEnforcer_init (trigger_instance : TriggerInstanceDB)
                             (rule : RuleDB) : E RuleEnforcer :=
  r <<- attempt (call (CallGetTransformer (ti_payload trigger_instance))
                      (get_transformer (ti_payload trigger_instance))) ;;
  match r with
  | Ret t => ret (mkRuleEnforcer trigger_instance rule t)
  | Exc e =>
      if is_Exception e then
        let message :=
          String.append "Failed to template-ize trigger payload: "
            (String.append (message e)
               (String.append ". If the payload contains special characters such as "
                  (String.append dquote (String.append "{{" (String.append dquote
                     " which dont't reference value in a datastore, those characters need to be escaped"))))) in
        raise (mkExc ValueError_ message)
      else raise e
  end.

Definition get_resolved_parameters (self : RuleEnforcer) : E pyval :=
  call (CallApplyTransformer (spec_parameters (rule_action (rule self))))
       (apply_transformer (data_transformer self)
                          (spec_parameters (rule_action (rule self)))).

(** [RuleEnforcer._update_trace]: the trace context, [None] when no trace
    is found. *)
Definition _update_trace (self : RuleEnforcer) : E (option (string * string)) :=
  r <<- attempt (call (CallGetTraceDb (trigger_instance self))
                   (get_trace_db_by_trigger_instance (trigger_instance self))) ;;
  match r with
  | Exc _ =>
      LOG (LogException "No Trace found for TriggerInstance.") >>;
      ret None
  | Ret trace_db =>
      (* This would signify some sort of coding error so assert. *)
      match trace_db with
      | None => raise (mkExc AssertionError_ "")
      | Some trace_db =>
          component <<- call CallGetTraceComponent
                          (get_trace_component_for_rule (rule self)
                             (trigger_instance self)) ;;
          trace_db <<- call (CallUpdateTrace trace_db)
                         (add_or_update_given_trace_db trace_db [component]) ;;
          ret (Some (trace_id trace_db, trace_tag trace_db))
      end
  end.

(** [RuleEnforcer._update_enforcement] *)
Definition _update_enforcement (enforcement_db : RuleEnforcementDB) : E unit :=
  r <<- attempt (call (CallAddOrUpdateEnforcement enforcement_db)
                      (RuleEnforcement_add_or_update enforcement_db)) ;;
  match r with
  | Ret _ => ret tt
  | Exc _ => LOG (LogException "Failed writing enforcement model to db.")
  end.

(** [RuleEnforcer._invoke_action] *)
Definition _invoke_action (action_db : ActionDB) (runnertype_db : RunnerTypeDB)
                          (params : pyval) (context : Context)
  : E (option ExecutionDB) :=
  let action_ref := action_ref action_db in
  runnertype_db <<- call (CallGetRunnertypeByName (action_runner_type_name action_db))
                      (get_runnertype_by_name (action_runner_type_name action_db)) ;;
  let liveaction_db := mkLiveAction action_ref context params in
  r <<- attempt (call (CallRenderLiveParams (la_parameters liveaction_db))
                   (render_live_params (runner_parameters runnertype_db)
                      (action_parameters action_db)
                      (la_parameters liveaction_db)
                      (la_context liveaction_db))) ;;
  liveaction_db <<-
    match r with
    | Ret rendered =>
        ret (mkLiveAction (la_action liveaction_db) (la_context liveaction_db)
                          rendered)
    | Exc e => if is_ParamException e then ret liveaction_db else raise e
    end ;;
  pair <<- call (CallRequest liveaction_db)
             (action_service_request liveaction_db) ;;
  let '(liveaction, execution) := pair in
  ret execution.

(** [RuleEnforcer._do_enforce] *)
Definition _do_enforce (self : RuleEnforcer) : E (option ExecutionDB) :=
  let action_ref := spec_ref (rule_action (rule self)) in
  (* Verify action referenced in the rule exists in the database *)
  action_db <<- call (CallGetActionByRef action_ref)
                  (get_action_by_ref action_ref) ;;
  match action_db with
  | None =>
      raise (mkExc ValueError_
               (String.append "Action "
                  (String.append dquote
                     (String.append action_ref
                        (String.append dquote " doesn't exist")))))
  | Some action_db =>
      runnertype_db <<- call (CallGetRunnertypeByName
                                (action_runner_type_name action_db))
                          (get_runnertype_by_name
                             (action_runner_type_name action_db)) ;;
      params <<- get_resolved_parameters self ;;
      call (CallJsonDumps params) (dumps params) >>;
      LOG LogInfo >>;
      (* update trace before invoking the action. *)
      trace_context <<- _update_trace self ;;
      LOG LogDebug >>;
      ti_ref <<- call CallGetRef
                   (get_ref_from_trigger_instance (trigger_instance self)) ;;
      rule_ref <<- call CallGetRef (get_ref_from_rule (rule self)) ;;
      user <<- call CallGetSystemUsername get_system_username ;;
      let context :=
        mkContext ti_ref rule_ref user (action_pack action_db) trace_context in
      _invoke_action action_db runnertype_db params context
  end.

(** [RuleEnforcer.enforce]. The [try] statement is written out: the
    outcome of its body is looked at, the [except Exception] clause takes
    the exceptions inside [Exception], and [_update_enforcement], the
    [finally] clause, runs on every way out. *)
Definition enforce (self : RuleEnforcer) : E (option ExecutionDB) :=
  let rule_spec :=
    (rule_ref (rule self), rule_id (rule self), rule_uid (rule self)) in
  let enforcement_db :=
    mkEnforcement (ti_id (trigger_instance self)) rule_spec None None in
  r <<- attempt
          (execution_db <<- _do_enforce self ;;
           match execution_db with
           | Some execution => ret execution
           | None =>
               raise (mkExc AttributeError_
                        "'NoneType' object has no attribute 'id'")
           end) ;;
  match r with
  | Ret execution =>
      let enforcement_db :=
        mkEnforcement (enf_trigger_instance_id enforcement_db)
                      (enf_rule enforcement_db)
                      (Some (exec_id execution))
                      (enf_failure_reason enforcement_db) in
      _update_enforcement enforcement_db >>;
      (if existsb (String.eqb (exec_status execution)) EXEC_KICKED_OFF_STATES
       then LOG LogAuditEnforced
       else LOG LogAuditFailed) >>;
      ret (Some execution)
  | Exc e =>
      if is_Exception e then
        (* Record the failure reason in the RuleEnforcement. *)
        let enforcement_db :=
          mkEnforcement (enf_trigger_instance_id enforcement_db)
                        (enf_rule enforcement_db)
                        (enf_execution_id enforcement_db)
                        (Some (message e)) in
        LOG (LogException "Failed kicking off execution for rule.") >>;
        _update_enforcement enforcement_db >>;
        LOG LogAuditFailed >>;
        ret None
      else
        _update_enforcement enforcement_db >>;
        raise e
  end.

End RuleEnforcer.

(** ** A database to run the enforcer on

    One action, "core.local", is known; rendering fails with
    [ParamException] on the parameters [None]; the database counts the
    calls that reached it. *)

Definition sample_action : ActionDB :=
  {| action_ref := "core.local"; action_pack := "core";
     action_runner_type_name := "local-shell-cmd";
     action_parameters := PyDict [] |}.

#[export] Instance toy_services : Services :=
  {| Db := nat;
     Transformer := unit;
     TraceComponent := unit;
     get_transformer := fun payload d =>
       match payload with
       | PyNone => (Exc (mkExc (OtherException "TemplateSyntaxError") "unexpected end"), S d)
       | _ => (Ret tt, S d)
       end;
     apply_transformer := fun _ parameters d => (Ret parameters, S d);
     get_action_by_ref := fun ref d =>
       (Ret (if String.eqb ref "core.local" then Some sample_action else None), S d);
     get_runnertype_by_name := fun _ d =>
       (Ret {| runner_parameters := PyDict [] |}, S d);
     get_trace_db_by_trigger_instance := fun _ d =>
       (Exc (mkExc (OtherException "UniqueTraceNotFoundException") "no trace"), S d);
     get_trace_component_for_rule := fun _ _ d => (Ret tt, S d);
     add_or_update_given_trace_db := fun t _ d => (Ret t, S d);
     RuleEnforcement_add_or_update := fun _ d => (Ret tt, S d);
     render_live_params := fun _ _ parameters _ d =>
       match parameters with
       | PyNone => (Exc (mkExc ParamException_ "cannot render"), S d)
       | _ => (Ret parameters, S d)
       end;
     action_service_request := fun liveaction d =>
       (Ret (liveaction,
             Some {| exec_id := "5f1a"; exec_status := "requested" |}), S d);
     get_ref_from_trigger_instance := fun _ d => (Ret PyNone, S d);
     get_ref_from_rule := fun _ d => (Ret PyNone, S d);
     get_system_username := fun d => (Ret "stanley"%string, S d);
     dumps := fun _ d => (Ret "{}"%string, S d);
     EXEC_KICKED_OFF_STATES := ["scheduled"; "requested"]%string |}.

Definition sample_trigger_instance : TriggerInstanceDB :=
  {| ti_id := "57a0"; ti_payload := PyDict [] |}.

Definition sample_rule (ref : string) (parameters : pyval) : RuleDB :=
  {| rule_ref := "examples.rule"; rule_id := "57a1";
     rule_uid := "rule:examples:rule";
     rule_action := {| spec_ref := ref; spec_parameters := parameters |} |}.

Definition sample_enforcer (ref : string) (parameters : pyval) : RuleEnforcer :=
  mkRuleEnforcer sample_trigger_instance (sample_rule ref parameters) tt.

Definition sample_state : St := mkSt (0%nat : Db) [] [].

(** ** Properties of the enforcer *)

Section EnforcerProperties.

Context {services : Services}.

Lemma bind_ret {A B} (m : E A) (k : A -> E B) (st st' : St) (a : A) :
  m st = (Ret a, st') -> bind m k st = k a st'.
Proof. intros H. unfold bind. rewrite H. reflexivity. Qed.

Lemma bind_exc {A B} (m : E A) (k : A -> E B) (st st' : St) (e : exc) :
  m st = (Exc e, st') -> bind m k st = (Exc e, st').
Proof. intros H. unfold bind. rewrite H. reflexivity. Qed.

Lemma call_eq {A} (c : Call) (op : Db -> Res A * Db) (st : St)
    (r : Res A) (d : Db) :
  op (db st) = (r, d) -> call c op st = (r, mkSt d (c :: calls st) (logs st)).
Proof. intros H. unfold call. rewrite H. reflexivity. Qed.

Lemma attempt_eq {A} (m : E A) (st st' : St) (r : Res A) :
  m st = (r, st') -> attempt m st = (Ret r, st').
Proof. intros H. unfold attempt. rewrite H. reflexivity. Qed.

(** What [_update_enforcement] does: one call to the persistence layer,
    and a log record when that call raised. It never raises. *)
Lemma _update_enforcement_eq (enforcement_db : RuleEnforcementDB) (st : St) :
  exists d l,
    _update_enforcement enforcement_db st =
    (Ret tt, mkSt d (CallAddOrUpdateEnforcement enforcement_db :: calls st) l) /\
    (l = logs st \/
     l = LogException "Failed writing enforcement model to db." :: logs st).
Proof.
  unfold _update_enforcement, bind, attempt, call.
  destruct (RuleEnforcement_add_or_update enforcement_db (db st)) as [[u|e] d].
  - exists d, (logs st). split; [reflexivity|left; reflexivity].
  - exists d, (LogException "Failed writing enforcement model to db." :: logs st).
    split; [reflexivity|right; reflexivity].
Qed.

Definition initial_enforcement (self : RuleEnforcer) : RuleEnforcementDB :=
  mkEnforcement (ti_id (trigger_instance self))
    (rule_ref (rule self), rule_id (rule self), rule_uid (rule self))
    None None.

(** [enforce] after [_do_enforce], case by case. *)
Lemma enforce_cases (self : RuleEnforcer) (st st1 : St)
    (outcome : Res (option ExecutionDB)) :
  _do_enforce self st = (outcome, st1) ->
  let record execution_id failure_reason :=
    mkEnforcement (ti_id (trigger_instance self))
      (rule_ref (rule self), rule_id (rule self), rule_uid (rule self))
      execution_id failure_reason in
  let failed reason :=
    exists st2,
      enforce self st = (Ret None, st2) /\
      calls st2 = CallAddOrUpdateEnforcement (record None (Some reason))
                    :: calls st1 in
  match outcome with
  | Ret (Some execution) =>
      exists st2,
        enforce self st = (Ret (Some execution), st2) /\
        calls st2 =
          CallAddOrUpdateEnforcement (record (Some (exec_id execution)) None)
            :: calls st1
  | Ret None => failed "'NoneType' object has no attribute 'id'"%string
  | Exc e =>
      if is_Exception e then failed (message e)
      else
        exists st2,
          enforce self st = (Exc e, st2) /\
          calls st2 = CallAddOrUpdateEnforcement (record None None) :: calls st1
  end.
Proof.
  intros H record failed. unfold failed, enforce.
  destruct outcome as [[execution|]|e].
  - rewrite (bind_ret _ _ _ _ _
               (attempt_eq _ _ _ _ (bind_ret _ _ _ _ _ H))).
    destruct (_update_enforcement_eq (record (Some (exec_id execution)) None) st1)
      as (d & l & Hu & _).
    unfold record in Hu. cbn [enf_trigger_instance_id enf_rule enf_failure_reason].
    rewrite (bind_ret _ _ _ _ _ Hu).
    destruct (existsb _ _); eexists; split; reflexivity.
  - rewrite (bind_ret _ _ _ _ _
               (attempt_eq _ _ _ _ (bind_ret _ _ _ _ _ H))).
    cbn [is_Exception class_of message
         enf_trigger_instance_id enf_rule enf_execution_id].
    unfold bind at 1. cbn [LOG].
    match goal with
    | |- context [_update_enforcement ?enf] =>
        destruct (_update_enforcement_eq enf
                    (mkSt (db st1) (calls st1)
                       (LogException "Failed kicking off execution for rule."
                          :: logs st1))) as (d & l & Hu & _)
    end.
    rewrite (bind_ret _ _ _ _ _ Hu).
    eexists; split; reflexivity.
  - rewrite (bind_ret _ _ _ _ _
               (attempt_eq _ _ _ _ (bind_exc _ _ _ _ _ H))).
    destruct (is_Exception e).
    + cbn [enf_trigger_instance_id enf_rule enf_execution_id].
      unfold bind at 1. cbn [LOG].
      match goal with
      | |- context [_update_enforcement ?enf] =>
          destruct (_update_enforcement_eq enf
                      (mkSt (db st1) (calls st1)
                         (LogException "Failed kicking off execution for rule."
                            :: logs st1))) as (d & l & Hu & _)
      end.
      rewrite (bind_ret _ _ _ _ _ Hu).
      eexists; split; reflexivity.
    + destruct (_update_enforcement_eq (record None None) st1)
        as (d & l & Hu & _).
      unfold record in Hu. rewrite (bind_ret _ _ _ _ _ Hu).
      eexists; split; reflexivity.
Qed.

(** X17. [enforce] turns the outcome of [_do_enforce] into its result and
    into one enforcement record. An execution is returned and its id
    recorded. An exception inside [Exception], or no execution at all,
    gives [None] and a record with the failure reason (the message of the
    exception) and no execution id. Nothing else is written after
    [_do_enforce]. *)
Theorem enforce_records_outcome (self : RuleEnforcer) (st st1 : St)
    (outcome : Res (option ExecutionDB)) :
  _do_enforce self st = (outcome, st1) ->
  let record execution_id failure_reason :=
    mkEnforcement (ti_id (trigger_instance self))
      (rule_ref (rule self), rule_id (rule self), rule_uid (rule self))
      execution_id failure_reason in
  match outcome with
  | Ret (Some execution) =>
      exists st2,
        enforce self st = (Ret (Some execution), st2) /\
        calls st2 =
          CallAddOrUpdateEnforcement (record (Some (exec_id execution)) None)
            :: calls st1
  | Ret None =>
      exists st2,
        enforce self st = (Ret None, st2) /\
        calls st2 =
          CallAddOrUpdateEnforcement
            (record None (Some "'NoneType' object has no attribute 'id'"%string))
            :: calls st1
  | Exc e =>
      is_Exception e = true ->
      exists st2,
        enforce self st = (Ret None, st2) /\
        calls st2 =
          CallAddOrUpdateEnforcement (record None (Some (message e)))
            :: calls st1
  end.
Proof.
  intros H record. pose proof (enforce_cases self st st1 outcome H) as C.
  cbv zeta in C. destruct outcome as [[execution|]|e]; try exact C.
  intros He. rewrite He in C. exact C.
Qed.

(** ** No enforcement record but the one of [enforce] *)

Definition is_enforcement_write (c : Call) : bool :=
  match c with CallAddOrUpdateEnforcement _ => true | _ => false end.

Definition enforcement_writes (cs : list Call) : nat :=
  List.length (filter is_enforcement_write cs).

(** A computation that writes no enforcement record. *)
Definition quiet {A} (m : E A) : Prop :=
  forall st, enforcement_writes (calls (snd (m st))) = enforcement_writes (calls st).

Lemma quiet_ret {A} (a : A) : quiet (ret a).
Proof. intros st. reflexivity. Qed.

Lemma quiet_raise {A} (e : exc) : quiet (@raise _ A e).
Proof. intros st. reflexivity. Qed.

Lemma quiet_LOG (r : LogRecord) : quiet (LOG r).
Proof. intros st. reflexivity. Qed.

Lemma quiet_call {A} (c : Call) (op : Db -> Res A * Db) :
  is_enforcement_write c = false -> quiet (call c op).
Proof.
  intros Hc st. unfold call. destruct (op (db st)) as [r d].
  cbn [snd calls]. unfold enforcement_writes. cbn [filter]. rewrite Hc.
  reflexivity.
Qed.

Lemma quiet_attempt {A} (m : E A) : quiet m -> quiet (attempt m).
Proof.
  intros Hm st. specialize (Hm st). unfold attempt.
  destruct (m st) as [r st']. exact Hm.
Qed.

Lemma quiet_bind {A B} (m : E A) (k : A -> E B) :
  quiet m -> (forall a, quiet (k a)) -> quiet (bind m k).
Proof.
  intros Hm Hk st. specialize (Hm st). unfold bind.
  destruct (m st) as [[a|e] st']; cbn [snd] in *.
  - rewrite (Hk a st'). exact Hm.
  - exact Hm.
Qed.

Ltac quiet_step :=
  first
    [ apply quiet_ret
    | apply quiet_raise
    | apply quiet_LOG
    | apply quiet_call; reflexivity
    | apply quiet_attempt
    | apply quiet_bind; [|intros ?]
    | match goal with
      | |- quiet (match ?x with _ => _ end) => destruct x
      end ].

Lemma quiet_do_enforce (self : RuleEnforcer) : quiet (_do_enforce self).
Proof.
  unfold _do_enforce, _invoke_action, _update_trace, get_resolved_parameters.
  repeat quiet_step.
Qed.

(** X18. [enforce] writes exactly one enforcement record on every way
    out, and no exception inside [Exception] leaves it: what it raises, if
    anything, is outside [Exception]. *)
Theorem enforce_writes_once (self : RuleEnforcer) (st : St) :
  enforcement_writes (calls (snd (enforce self st)))
    = S (enforcement_writes (calls st)) /\
  (forall e, fst (enforce self st) = Exc e -> is_Exception e = false).
Proof.
  destruct (_do_enforce self st) as [outcome st1] eqn:H.
  pose proof (quiet_do_enforce self st) as Q. rewrite H in Q. cbn [snd] in Q.
  pose proof (enforce_cases self st st1 outcome H) as C. cbv zeta in C.
  destruct outcome as [[execution|]|e].
  - destruct C as (st2 & -> & Hc). cbn [fst snd]. rewrite Hc.
    split; [|discriminate]. unfold enforcement_writes in *. cbn [filter length is_enforcement_write].
    rewrite Q. reflexivity.
  - destruct C as (st2 & -> & Hc). cbn [fst snd]. rewrite Hc.
    split; [|discriminate]. unfold enforcement_writes in *. cbn [filter length is_enforcement_write].
    rewrite Q. reflexivity.
  - destruct (is_Exception e) eqn:He; destruct C as (st2 & -> & Hc);
      cbn [fst snd]; rewrite Hc.
    + split; [|discriminate]. unfold enforcement_writes in *.
      cbn [filter length is_enforcement_write]. rewrite Q. reflexivity.
    + split.
      * unfold enforcement_writes in *.
        cbn [filter length is_enforcement_write]. rewrite Q. reflexivity.
      * intros e' E. injection E as <-. exact He.
Qed.

(** X19. When the action of the rule is not in the database,
    [enforce] returns [None], asks for no execution and touches no trace:
    after the lookup of the action the one call it makes writes the
    enforcement record, with the failure reason
    [Action "<ref>" doesn't exist]. *)
Theorem enforce_missing_action (self : RuleEnforcer) (st : St) (d : Db) :
  let ref := spec_ref (rule_action (rule self)) in
  get_action_by_ref ref (db st) = (Ret None, d) ->
  exists st2,
    enforce self st = (Ret None, st2) /\
    calls st2 =
      CallAddOrUpdateEnforcement
        (mkEnforcement (ti_id (trigger_instance self))
           (rule_ref (rule self), rule_id (rule self), rule_uid (rule self))
           None
           (Some (String.append "Action "
                    (String.append dquote
                       (String.append ref
                          (String.append dquote " doesn't exist"))))))
      :: CallGetActionByRef ref :: calls st.
Proof.
  intros ref H.
  assert (Hd : _do_enforce self st =
               (Exc (mkExc ValueError_
                       (String.append "Action "
                          (String.append dquote
                             (String.append ref
                                (String.append dquote " doesn't exist"))))),
                mkSt d (CallGetActionByRef ref :: calls st) (logs st))).
  { unfold _do_enforce. fold ref.
    rewrite (bind_ret _ _ _ _ _ (call_eq _ _ _ _ _ H)). reflexivity. }
  pose proof (enforce_cases self st _ _ Hd) as C. cbv zeta in C.
  cbn [is_Exception class_of message calls] in C. exact C.
Qed.

(** X20. [_invoke_action] when the rendering of the parameters raises:
    a [ParamException] is dropped and the execution is asked for all the
    same, with the parameters as they were given; any other exception
    leaves [_invoke_action] and no execution is asked for. *)
Theorem invoke_action_render_failure
    (action_db : ActionDB) (runnertype_db rt : RunnerTypeDB)
    (params : pyval) (context : Context) (st : St) (d1 d2 : Db) (e : exc) :
  get_runnertype_by_name (action_runner_type_name action_db) (db st)
    = (Ret rt, d1) ->
  render_live_params (runner_parameters rt) (action_parameters action_db)
                     params context d1 = (Exc e, d2) ->
  let liveaction := mkLiveAction (action_ref action_db) context params in
  let before :=
    CallRenderLiveParams params
      :: CallGetRunnertypeByName (action_runner_type_name action_db)
      :: calls st in
  if is_ParamException e then
    exists r d3,
      action_service_request liveaction d2 = (r, d3) /\
      _invoke_action action_db runnertype_db params context st =
      (match r with
       | Ret (_, execution) => Ret execution
       | Exc e' => Exc e'
       end,
       mkSt d3 (CallRequest liveaction :: before) (logs st))
  else
    _invoke_action action_db runnertype_db params context st =
    (Exc e, mkSt d2 before (logs st)).
Proof.
  intros Hr Hp liveaction before. unfold _invoke_action.
  rewrite (bind_ret _ _ _ _ _ (call_eq _ _ _ _ _ Hr)).
  cbn [la_parameters la_context la_action].
  rewrite (bind_ret _ _ _ _ _
             (attempt_eq _ _ _ _ (call_eq _ _
                (mkSt d1 (CallGetRunnertypeByName
                            (action_runner_type_name action_db) :: calls st)
                      (logs st)) _ _ Hp))).
  destruct (is_ParamException e).
  - destruct (action_service_request liveaction d2) as [r d3] eqn:Hq.
    exists r, d3. split; [reflexivity|].
    unfold bind, ret, call. cbn [db calls logs]. fold liveaction. rewrite Hq.
    destruct r as [[la ex]|e']; reflexivity.
  - reflexivity.
Qed.

(** X21. What the constructor of [RuleEnforcer] raises is a
    [ValueError], or else is outside [Exception]: every failure of the
    transformer that is an [Exception] is raised again as [ValueError].
    The transformer is the one service it calls. *)
Theorem RuleEnforcer_init_failure (trigger_instance : TriggerInstanceDB)
    (rule : RuleDB) (st st' : St) (e : exc) :
  RuleEnforcer_init trigger_instance rule st = (Exc e, st') ->
  (class_of e = ValueError_ \/ is_Exception e = false) /\
  calls st' = CallGetTransformer (ti_payload trigger_instance) :: calls st.
Proof.
  unfold RuleEnforcer_init, bind, attempt, call, ret, raise.
  destruct (get_transformer (ti_payload trigger_instance) (db st)) as [[t|e0] d].
  - discriminate.
  - destruct (is_Exception e0) eqn:He; intros H; injection H as <- <-.
    + split; [left; reflexivity|reflexivity].
    + split; [right; exact He|reflexivity].
Qed.

End EnforcerProperties.

Lemma enforce_records_outcome_witness :
  let self := sample_enforcer "no.such.action" (PyDict []) in
  let reason :=
    String.append "Action "
      (String.append dquote
         (String.append "no.such.action" (String.append dquote " doesn't exist"))) in
  exists st1 st2,
    _do_enforce self sample_state = (Exc (mkExc ValueError_ reason), st1) /\
    is_Exception (mkExc ValueError_ reason) = true /\
    enforce self sample_state = (Ret None, st2) /\
    calls st2 =
      CallAddOrUpdateEnforcement
        (mkEnforcement "57a0" ("examples.rule", "57a1", "rule:examples:rule")%string
           None (Some reason))
      :: calls st1.
Proof.
  intros self reason.
  set (st1 := snd (_do_enforce self sample_state)).
  assert (H : _do_enforce self sample_state = (Exc (mkExc ValueError_ reason), st1))
    by reflexivity.
  destruct (enforce_records_outcome self sample_state st1 _ H eq_refl)
    as (st2 & E & C).
  exists st1, st2. split; [exact H|]. split; [reflexivity|].
  split; [exact E|exact C].
Defined.

Lemma enforce_missing_action_witness :
  let self := sample_enforcer "no.such.action" (PyDict []) in
  get_action_by_ref "no.such.action" (db sample_state) = (Ret None, 1%nat) /\
  exists st2,
    enforce self sample_state = (Ret None, st2) /\
    List.length (calls st2) = 2%nat /\
    existsb (fun c => match c with CallRequest _ => true | _ => false end)
            (calls st2) = false.
Proof.
  intros self.
  assert (H : get_action_by_ref (spec_ref (rule_action (rule self)))
                (db sample_state) = (Ret None, 1%nat)) by reflexivity.
  split; [exact H|].
  destruct (enforce_missing_action self sample_state 1%nat H) as (st2 & E & C).
  exists st2. split; [exact E|]. rewrite C. split; reflexivity.
Defined.

Lemma invoke_action_render_failure_witness :
  let context := mkContext PyNone PyNone "stanley" "core" None in
  let rt := {| runner_parameters := PyDict [] |} in
  let liveaction := mkLiveAction "core.local" context PyNone in
  get_runnertype_by_name "local-shell-cmd" (db sample_state) = (Ret rt, 1%nat) /\
  render_live_params (PyDict []) (PyDict []) PyNone context 1%nat
    = (Exc (mkExc ParamException_ "cannot render"), 2%nat) /\
  exists r d3,
    action_service_request liveaction 2%nat = (r, d3) /\
    _invoke_action sample_action rt PyNone context sample_state =
    (match r with
     | Ret (_, execution) => Ret execution
     | Exc e' => Exc e'
     end,
     mkSt d3 [CallRequest liveaction; CallRenderLiveParams PyNone;
              CallGetRunnertypeByName "local-shell-cmd"] []).
Proof.
  intros context rt liveaction.
  split; [reflexivity|]. split; [reflexivity|].
  exact (invoke_action_render_failure sample_action rt rt PyNone context
           sample_state 1%nat 2%nat (mkExc ParamException_ "cannot render")
           eq_refl eq_refl).
Defined.

Lemma RuleEnforcer_init_failure_witness :
  let ti := {| ti_id := "57a0"; ti_payload := PyNone |} in
  exists e st',
    RuleEnforcer_init ti (sample_rule "core.local" (PyDict [])) sample_state
      = (Exc e, st') /\
    (class_of e = ValueError_ \/ is_Exception e = false) /\
    calls st' = [CallGetTransformer PyNone].
Proof.
  intros ti.
  set (r := RuleEnforcer_init ti (sample_rule "core.local" (PyDict [])) sample_state).
  assert (H : r = (Exc (match fst r with Exc e => e | Ret _ => mkExc ValueError_ "" end),
                   snd r)) by reflexivity.
  unfold r in H. eexists _, _. split; [exact H|].
  exact (RuleEnforcer_init_failure ti (sample_rule "core.local" (PyDict []))
           sample_state _ _ H).
Defined.

(** The enforcer run on the sample rule: an execution is asked for and
    the enforcement record carries its id. *)
Example enforce_sample_rule :
  let r := enforce (sample_enforcer "core.local" (PyDict [])) sample_state in
  fst r = Ret (Some {| exec_id := "5f1a"; exec_status := "requested" |}) /\
  hd_error (calls (snd r)) =
    Some (CallAddOrUpdateEnforcement
            (mkEnforcement "57a0"
               ("examples.rule", "57a1", "rule:examples:rule")%string
               (Some "5f1a"%string) None)) /\
  hd_error (logs (snd r)) = Some LogAuditEnforced.
Proof. repeat split. Qed.

End Enforcer.
